(** * The dialog lifecycle controller of material-web

    A shallow embedding of [src/dialog/internal/dialog.ts] (class [Dialog]).

    The element is a Lit [LitElement].  Four things that the class relies
    on but does not define are part of the model, each kept as small as the
    class needs it:

    - Lit's reactive properties: a write of a new value [v] to a property
      whose value is [old] does nothing when [v === old]; otherwise it
      stores [v], records [name -> old] in the map of changed properties
      unless [name] is already a key, and asks for an update.  An update
      runs [willUpdate], renders, empties the map, and runs [updated] with
      the map as it was before it was emptied.
    - promises: an [async] method is cut at each [await]; a suspended call
      is a [task] that the event loop resumes later.
    - the native [<dialog>]: [showModal()], [close(returnValue)], its [open]
      flag, and the [cancel] and [close] events it delivers.
    - the HTML tokenizer, as far as the template of [render] needs it: it
      says which elements the template yields, and so what the [@query]
      fields find.

    Listeners of the embedding application are not modelled: dispatching an
    event appends it to the trace of effects.  The event loop may take its
    turns (an update, the resumption of a suspended call, a queued native
    event) in any order; this allows every order that promises and timers
    can produce.  Styles are left out. *)

From Stdlib Require Import QArith Qround Lqa Ascii.
From stdpp Require Import gmap strings list.

Local Open Scope string_scope.

(** ** Values and the trace of effects *)

(** The values a reactive property of this class takes, and [undefined]. *)
Inductive value : Type :=
| VUndefined
| VBool (b : bool)
| VString (s : string).

#[global] Instance value_eq_dec : EqDecision value.
Proof. solve_decision. Defined.

(** JavaScript truthiness of such a value. *)
Definition truthy (v : value) : bool :=
  match v with
  | VUndefined => false
  | VBool b => b
  | VString s => negb (String.eqb s "")
  end.

(** An element of the light DOM: its attributes and its child elements. *)
#[warnings="-register-all"]
Inductive element : Type :=
| Element (attrs : gmap string string) (children : list element).

Definition attrs (el : element) : gmap string string :=
  match el with Element a _ => a end.

Definition children (el : element) : list element :=
  match el with Element _ c => c end.

(** What the element does to the outside, in the order it does it. *)
Inductive effect : Type :=
| DispatchAction (type : string) (action : option string)
    (* dispatchEvent(new CustomEvent(type, {detail: {action}})) ;
       [None] is an [undefined] action *)
| ShowModal                       (* dialogElement.showModal() *)
| DialogClose (returnValue : string) (* dialogElement.close(returnValue) *)
| PreventDefault (type : string)  (* event.preventDefault() *)
| Redispatch (type : string)      (* redispatchEvent(this, event) *)
| Focus (el : element)            (* el.focus() *)
| Blur (el : element).            (* el.blur() *)

(** ** The state *)

(** The public reactive properties ([@property]). *)
Record Props : Type := {
  open : bool;
  fullscreen : bool;
  fullscreenBreakpoint : string;
  footerHidden : bool;
  defaultAction : string;
  actionAttribute : string;
  scrimClickAction : string;
  escapeKeyAction : string
}.

(** The private fields; the first four are reactive ([@state]).  [closing]
    is assigned [!this.open && changed.get('open')], which can be
    [undefined], so it is a [value]. *)
Record Priv : Type := {
  showingFullscreen : bool;
  showingOpen : bool;
  opening : bool;
  closing : value;
  currentAction : option string;          (* [None] is [undefined] *)
  dialogClosedResolver : option nat;      (* the promise it resolves *)
  fullscreenQuery : option string         (* the live media query *)
}.

(** Lit's bookkeeping. *)
Record Lit : Type := {
  changed : gmap string value;            (* _$changedProperties *)
  isUpdatePending : bool;
  hasUpdated : bool
}.

(** The scroll metrics of the [.content] section. *)
Record Content : Type := {
  scrollTop : Q;
  scrollHeight : Z;
  offsetHeight : Z;
  clientHeight : Z
}.

(** The rendered shadow tree: the native dialog's [open] flag and the
    content section.  It does not exist before the first render. *)
Record Shadow : Type := {
  dialogOpen : bool;
  content : Content
}.

Record Dom : Type := {
  attributes : gset string;               (* attributes of the host *)
  shadow : option Shadow;
  footerSlot : list element;   (* footerSlot.assignedElements({flatten}) *)
  contentSlot : list element;  (* contentSlot.assignedElements({flatten}) *)
  closeEvents : nat            (* native [close] events queued *)
}.

(** A call of [performTransition] suspended at one of its three awaits. *)
Inductive task : Type :=
| AtUpdateComplete (shouldDispatchAction : bool)   (* line 267 *)
| AtTransitionEnd (shouldDispatchAction : bool) (timed : bool) (* line 285 *)
| AtDialogClosed (shouldDispatchAction : bool) (closedPromise : nat).
                                                   (* line 302 *)

(** How a part of an [async] method ends: suspended at its next [await],
    or by an exception, which rejects the promise of the call. *)
Inductive outcome : Type :=
| Suspended (t : task)
| Rejected (error : string).

Record Runtime : Type := {
  tasks : list task;
  nextPromise : nat;
  resolved : gset nat;          (* the closed promises already resolved *)
  log : list effect
}.

Record State : Type := {
  props : Props;
  priv : Priv;
  lit : Lit;
  dom : Dom;
  rt : Runtime
}.

(** *** Field updates *)

Definition upd_props (f : Props -> Props) (s : State) : State :=
  {| props := f (props s); priv := priv s; lit := lit s; dom := dom s;
     rt := rt s |}.
Definition upd_priv (f : Priv -> Priv) (s : State) : State :=
  {| props := props s; priv := f (priv s); lit := lit s; dom := dom s;
     rt := rt s |}.
Definition upd_lit (f : Lit -> Lit) (s : State) : State :=
  {| props := props s; priv := priv s; lit := f (lit s); dom := dom s;
     rt := rt s |}.
Definition upd_dom (f : Dom -> Dom) (s : State) : State :=
  {| props := props s; priv := priv s; lit := lit s; dom := f (dom s);
     rt := rt s |}.
Definition upd_rt (f : Runtime -> Runtime) (s : State) : State :=
  {| props := props s; priv := priv s; lit := lit s; dom := dom s;
     rt := f (rt s) |}.

Definition set_open (v : bool) : State -> State :=
  upd_props (fun p =>
    {| open := v;
       fullscreen := fullscreen p;
       fullscreenBreakpoint := fullscreenBreakpoint p;
       footerHidden := footerHidden p;
       defaultAction := defaultAction p;
       actionAttribute := actionAttribute p;
       scrimClickAction := scrimClickAction p;
       escapeKeyAction := escapeKeyAction p |}).
Definition set_fullscreen (v : bool) : State -> State :=
  upd_props (fun p =>
    {| open := open p;
       fullscreen := v;
       fullscreenBreakpoint := fullscreenBreakpoint p;
       footerHidden := footerHidden p;
       defaultAction := defaultAction p;
       actionAttribute := actionAttribute p;
       scrimClickAction := scrimClickAction p;
       escapeKeyAction := escapeKeyAction p |}).
Definition set_fullscreenBreakpoint (v : string) : State -> State :=
  upd_props (fun p =>
    {| open := open p;
       fullscreen := fullscreen p;
       fullscreenBreakpoint := v;
       footerHidden := footerHidden p;
       defaultAction := defaultAction p;
       actionAttribute := actionAttribute p;
       scrimClickAction := scrimClickAction p;
       escapeKeyAction := escapeKeyAction p |}).
Definition set_footerHidden (v : bool) : State -> State :=
  upd_props (fun p =>
    {| open := open p;
       fullscreen := fullscreen p;
       fullscreenBreakpoint := fullscreenBreakpoint p;
       footerHidden := v;
       defaultAction := defaultAction p;
       actionAttribute := actionAttribute p;
       scrimClickAction := scrimClickAction p;
       escapeKeyAction := escapeKeyAction p |}).
Definition set_defaultAction (v : string) : State -> State :=
  upd_props (fun p =>
    {| open := open p;
       fullscreen := fullscreen p;
       fullscreenBreakpoint := fullscreenBreakpoint p;
       footerHidden := footerHidden p;
       defaultAction := v;
       actionAttribute := actionAttribute p;
       scrimClickAction := scrimClickAction p;
       escapeKeyAction := escapeKeyAction p |}).
Definition set_actionAttribute (v : string) : State -> State :=
  upd_props (fun p =>
    {| open := open p;
       fullscreen := fullscreen p;
       fullscreenBreakpoint := fullscreenBreakpoint p;
       footerHidden := footerHidden p;
       defaultAction := defaultAction p;
       actionAttribute := v;
       scrimClickAction := scrimClickAction p;
       escapeKeyAction := escapeKeyAction p |}).
Definition set_scrimClickAction (v : string) : State -> State :=
  upd_props (fun p =>
    {| open := open p;
       fullscreen := fullscreen p;
       fullscreenBreakpoint := fullscreenBreakpoint p;
       footerHidden := footerHidden p;
       defaultAction := defaultAction p;
       actionAttribute := actionAttribute p;
       scrimClickAction := v;
       escapeKeyAction := escapeKeyAction p |}).
Definition set_escapeKeyAction (v : string) : State -> State :=
  upd_props (fun p =>
    {| open := open p;
       fullscreen := fullscreen p;
       fullscreenBreakpoint := fullscreenBreakpoint p;
       footerHidden := footerHidden p;
       defaultAction := defaultAction p;
       actionAttribute := actionAttribute p;
       scrimClickAction := scrimClickAction p;
       escapeKeyAction := v |}).

Definition set_showingFullscreen (v : bool) : State -> State :=
  upd_priv (fun p =>
    {| showingFullscreen := v; showingOpen := showingOpen p;
       opening := opening p; closing := closing p;
       currentAction := currentAction p;
       dialogClosedResolver := dialogClosedResolver p;
       fullscreenQuery := fullscreenQuery p |}).
Definition set_showingOpen (v : bool) : State -> State :=
  upd_priv (fun p =>
    {| showingFullscreen := showingFullscreen p; showingOpen := v;
       opening := opening p; closing := closing p;
       currentAction := currentAction p;
       dialogClosedResolver := dialogClosedResolver p;
       fullscreenQuery := fullscreenQuery p |}).
Definition set_opening (v : bool) : State -> State :=
  upd_priv (fun p =>
    {| showingFullscreen := showingFullscreen p;
       showingOpen := showingOpen p;
       opening := v; closing := closing p;
       currentAction := currentAction p;
       dialogClosedResolver := dialogClosedResolver p;
       fullscreenQuery := fullscreenQuery p |}).
Definition set_closing (v : value) : State -> State :=
  upd_priv (fun p =>
    {| showingFullscreen := showingFullscreen p;
       showingOpen := showingOpen p;
       opening := opening p; closing := v;
       currentAction := currentAction p;
       dialogClosedResolver := dialogClosedResolver p;
       fullscreenQuery := fullscreenQuery p |}).
Definition set_currentAction (v : option string) : State -> State :=
  upd_priv (fun p =>
    {| showingFullscreen := showingFullscreen p;
       showingOpen := showingOpen p;
       opening := opening p; closing := closing p;
       currentAction := v;
       dialogClosedResolver := dialogClosedResolver p;
       fullscreenQuery := fullscreenQuery p |}).
Definition set_dialogClosedResolver (v : option nat) : State -> State :=
  upd_priv (fun p =>
    {| showingFullscreen := showingFullscreen p;
       showingOpen := showingOpen p;
       opening := opening p; closing := closing p;
       currentAction := currentAction p;
       dialogClosedResolver := v;
       fullscreenQuery := fullscreenQuery p |}).
Definition set_fullscreenQuery (v : option string) : State -> State :=
  upd_priv (fun p =>
    {| showingFullscreen := showingFullscreen p;
       showingOpen := showingOpen p;
       opening := opening p; closing := closing p;
       currentAction := currentAction p;
       dialogClosedResolver := dialogClosedResolver p;
       fullscreenQuery := v |}).

Definition set_changed (v : gmap string value) : State -> State :=
  upd_lit (fun l =>
    {| changed := v; isUpdatePending := isUpdatePending l;
       hasUpdated := hasUpdated l |}).
Definition set_isUpdatePending (v : bool) : State -> State :=
  upd_lit (fun l =>
    {| changed := changed l; isUpdatePending := v;
       hasUpdated := hasUpdated l |}).
Definition set_hasUpdated (v : bool) : State -> State :=
  upd_lit (fun l =>
    {| changed := changed l; isUpdatePending := isUpdatePending l;
       hasUpdated := v |}).

Definition set_attributes (v : gset string) : State -> State :=
  upd_dom (fun d =>
    {| attributes := v; shadow := shadow d; footerSlot := footerSlot d;
       contentSlot := contentSlot d; closeEvents := closeEvents d |}).
Definition set_shadow (v : option Shadow) : State -> State :=
  upd_dom (fun d =>
    {| attributes := attributes d; shadow := v;
       footerSlot := footerSlot d; contentSlot := contentSlot d;
       closeEvents := closeEvents d |}).
Definition set_closeEvents (v : nat) : State -> State :=
  upd_dom (fun d =>
    {| attributes := attributes d; shadow := shadow d;
       footerSlot := footerSlot d; contentSlot := contentSlot d;
       closeEvents := v |}).

Definition set_tasks (v : list task) : State -> State :=
  upd_rt (fun r =>
    {| tasks := v; nextPromise := nextPromise r; resolved := resolved r;
       log := log r |}).
Definition set_nextPromise (v : nat) : State -> State :=
  upd_rt (fun r =>
    {| tasks := tasks r; nextPromise := v; resolved := resolved r;
       log := log r |}).
Definition set_resolved (v : gset nat) : State -> State :=
  upd_rt (fun r =>
    {| tasks := tasks r; nextPromise := nextPromise r; resolved := v;
       log := log r |}).
Definition set_log (v : list effect) : State -> State :=
  upd_rt (fun r =>
    {| tasks := tasks r; nextPromise := nextPromise r;
       resolved := resolved r; log := v |}).

(** The effect [e] happens now. *)
Definition emit (e : effect) (s : State) : State :=
  set_log (log (rt s) ++ [e])%list s.

(** ** Lit's reactive properties *)

(** [changed.has(key)] and [changed.get(key)] on a [PropertyValues] map. *)
Definition has (key : string) (m : gmap string value) : bool :=
  bool_decide (is_Some (m !! key)).

Definition get (key : string) (m : gmap string value) : value :=
  default VUndefined (m !! key).

(** [requestUpdate(name, oldValue)] for a property that did change: the
    first old value of an update cycle is the one that stays recorded. *)
Definition noted (name : string) (old : value) (m : gmap string value)
    : gmap string value :=
  if has name m then m else <[name := old]> m.

Definition requestUpdate (name : string) (old : value) (s : State) : State :=
  set_isUpdatePending true (set_changed (noted name old (changed (lit s))) s).

(** A write [this.name = v] through the accessor of a reactive property:
    nothing happens unless [v !== old]. *)
Definition write {A : Type} `{EqDecision A} (name : string)
    (inj : A -> value) (rd : State -> A) (wr : A -> State -> State)
    (v : A) (s : State) : State :=
  if decide (v = rd s) then s
  else requestUpdate name (inj (rd s)) (wr v s).

Definition write_open : bool -> State -> State :=
  write "open" VBool (fun s => open (props s)) set_open.
Definition write_fullscreen : bool -> State -> State :=
  write "fullscreen" VBool (fun s => fullscreen (props s)) set_fullscreen.
Definition write_fullscreenBreakpoint : string -> State -> State :=
  write "fullscreenBreakpoint" VString
    (fun s => fullscreenBreakpoint (props s)) set_fullscreenBreakpoint.
Definition write_footerHidden : bool -> State -> State :=
  write "footerHidden" VBool (fun s => footerHidden (props s))
    set_footerHidden.
Definition write_defaultAction : string -> State -> State :=
  write "defaultAction" VString (fun s => defaultAction (props s))
    set_defaultAction.
Definition write_actionAttribute : string -> State -> State :=
  write "actionAttribute" VString (fun s => actionAttribute (props s))
    set_actionAttribute.
Definition write_scrimClickAction : string -> State -> State :=
  write "scrimClickAction" VString (fun s => scrimClickAction (props s))
    set_scrimClickAction.
Definition write_escapeKeyAction : string -> State -> State :=
  write "escapeKeyAction" VString (fun s => escapeKeyAction (props s))
    set_escapeKeyAction.
Definition write_showingFullscreen : bool -> State -> State :=
  write "showingFullscreen" VBool (fun s => showingFullscreen (priv s))
    set_showingFullscreen.
Definition write_showingOpen : bool -> State -> State :=
  write "showingOpen" VBool (fun s => showingOpen (priv s)) set_showingOpen.
Definition write_opening : bool -> State -> State :=
  write "opening" VBool (fun s => opening (priv s)) set_opening.
Definition write_closing : value -> State -> State :=
  write "closing" id (fun s => closing (priv s)) set_closing.

(** ** The class [Dialog] *)

(** Default close action. *)
Definition CLOSE_ACTION : string := "close".

(** The element as its constructor leaves it.  Every field initialiser is
    a first write, whose old value is [undefined]; the update it asks for
    runs once the element is connected.  The slotted elements are those of
    the embedding page. *)
Definition constructed (footer body : list element) : State :=
  {| props :=
       {| open := false; fullscreen := false;
          fullscreenBreakpoint := "(max-width: 600px), (max-height: 400px)";
          footerHidden := false;
          defaultAction := CLOSE_ACTION;
          actionAttribute := "dialog-action";
          scrimClickAction := CLOSE_ACTION;
          escapeKeyAction := CLOSE_ACTION |};
     priv :=
       {| showingFullscreen := false; showingOpen := false;
          opening := false; closing := VBool false;
          currentAction := None; dialogClosedResolver := None;
          fullscreenQuery := None |};
     lit :=
       {| changed :=
            list_to_map
              ((fun k => (k, VUndefined)) <$>
               ["open"; "fullscreen"; "fullscreenBreakpoint";
                "footerHidden"; "defaultAction"; "actionAttribute";
                "scrimClickAction"; "escapeKeyAction"; "showingFullscreen";
                "showingOpen"; "opening"; "closing"]);
          isUpdatePending := true;
          hasUpdated := false |};
     dom :=
       {| attributes := ∅; shadow := None; footerSlot := footer;
          contentSlot := body; closeEvents := 0 |};
     rt := {| tasks := []; nextPromise := 0; resolved := ∅; log := [] |} |}.

(** [show()]: the same as setting [open] to [true]. *)
Definition show (s : State) : State :=
  write_open true s.

(** [close(action = '')]. *)
Definition close (action : string) (s : State) : State :=
  let s := set_currentAction (Some action) s in
  write_open false s.

(** *** The template of [render] and the elements it yields *)

(** A start tag as the HTML tokenizer emits it: the element it opens. *)
Record Tag : Type := {
  tagName : string;
  tagAttributes : list (string * string)
}.

(** The states of the HTML tokenizer that a template of tags and
    attributes goes through.  Comments, character references and the
    folding of upper case, of which the template has none, are left
    out. *)
Inductive tokenizerState : Type :=
| Data
| TagOpen
| EndTagOpen
| TagName
| BeforeAttributeName
| AttributeName
| AfterAttributeName
| BeforeAttributeValue
| AttributeValueQuoted (quote : ascii)
| AttributeValueUnquoted
| AfterAttributeValueQuoted
| SelfClosingStartTag.

(** The tokenizer at work: its state, the tag it is reading ([tkEnd] for
    an end tag; the attribute it is reading comes first) and the start tags
    emitted so far, the latest first. *)
Record Tokenizer : Type := {
  tkState : tokenizerState;
  tkEnd : bool;
  tkName : string;
  tkAttributes : list (string * string);
  tkEmitted : list Tag
}.

Definition doubleQuote : ascii := ascii_of_nat 34.
Definition lineFeed : ascii := ascii_of_nat 10.

Definition isWhitespace (c : ascii) : bool :=
  Ascii.eqb c " " || Ascii.eqb c lineFeed || Ascii.eqb c (ascii_of_nat 9)
  || Ascii.eqb c (ascii_of_nat 12) || Ascii.eqb c (ascii_of_nat 13).

Definition isLetter (c : ascii) : bool :=
  let n := nat_of_ascii c in
  ((65 <=? n) && (n <=? 90) || (97 <=? n) && (n <=? 122))%nat.

Definition snoc (s : string) (c : ascii) : string := s ++ String c "".

Definition goto (st : tokenizerState) (k : Tokenizer) : Tokenizer :=
  {| tkState := st; tkEnd := tkEnd k; tkName := tkName k;
     tkAttributes := tkAttributes k; tkEmitted := tkEmitted k |}.

Definition newTag (isEnd : bool) (k : Tokenizer) : Tokenizer :=
  {| tkState := TagName; tkEnd := isEnd; tkName := "";
     tkAttributes := []; tkEmitted := tkEmitted k |}.

(** The tag is complete.  An end tag opens no element. *)
Definition emitTag (k : Tokenizer) : Tokenizer :=
  {| tkState := Data; tkEnd := false; tkName := ""; tkAttributes := [];
     tkEmitted :=
       if tkEnd k then tkEmitted k
       else {| tagName := tkName k;
               tagAttributes := reverse (tkAttributes k) |} :: tkEmitted k |}.

Definition toTagName (c : ascii) (k : Tokenizer) : Tokenizer :=
  {| tkState := TagName; tkEnd := tkEnd k; tkName := snoc (tkName k) c;
     tkAttributes := tkAttributes k; tkEmitted := tkEmitted k |}.

Definition newAttribute (k : Tokenizer) : Tokenizer :=
  {| tkState := AttributeName; tkEnd := tkEnd k; tkName := tkName k;
     tkAttributes := ("", "") :: tkAttributes k; tkEmitted := tkEmitted k |}.

Definition toAttribute (f : string * string -> string * string)
    (k : Tokenizer) : Tokenizer :=
  {| tkState := tkState k; tkEnd := tkEnd k; tkName := tkName k;
     tkAttributes :=
       match tkAttributes k with
       | a :: r => f a :: r
       | [] => []
       end;
     tkEmitted := tkEmitted k |}.

(** What each state does with the next character.  Where the standard
    has a character reconsumed in another state, that state's function is
    called. *)
Definition inAttributeName (c : ascii) (k : Tokenizer) : Tokenizer :=
  if isWhitespace c then goto AfterAttributeName k
  else if Ascii.eqb c "/" then goto SelfClosingStartTag k
  else if Ascii.eqb c ">" then emitTag k
  else if Ascii.eqb c "=" then goto BeforeAttributeValue k
  else toAttribute (fun a => (snoc (fst a) c, snd a)) k.

Definition inAfterAttributeName (c : ascii) (k : Tokenizer) : Tokenizer :=
  if isWhitespace c then k
  else if Ascii.eqb c "/" then goto SelfClosingStartTag k
  else if Ascii.eqb c "=" then goto BeforeAttributeValue k
  else if Ascii.eqb c ">" then emitTag k
  else inAttributeName c (newAttribute k).

Definition inBeforeAttributeName (c : ascii) (k : Tokenizer) : Tokenizer :=
  if isWhitespace c then k
  else if Ascii.eqb c "/" || Ascii.eqb c ">" then inAfterAttributeName c k
  else if Ascii.eqb c "="
  then toAttribute (fun a => (snoc (fst a) c, snd a)) (newAttribute k)
  else inAttributeName c (newAttribute k).

(** A quoted value runs to the next quote of its kind, whatever comes
    before it. *)
Definition inAttributeValue (quote : option ascii) (c : ascii)
    (k : Tokenizer) : Tokenizer :=
  match quote with
  | Some q =>
      if Ascii.eqb c q then goto AfterAttributeValueQuoted k
      else toAttribute (fun a => (fst a, snoc (snd a) c)) k
  | None =>
      if isWhitespace c then goto BeforeAttributeName k
      else if Ascii.eqb c ">" then emitTag k
      else toAttribute (fun a => (fst a, snoc (snd a) c)) k
  end.

Definition inBeforeAttributeValue (c : ascii) (k : Tokenizer) : Tokenizer :=
  if isWhitespace c then k
  else if Ascii.eqb c doubleQuote || Ascii.eqb c "'"
  then goto (AttributeValueQuoted c) k
  else if Ascii.eqb c ">" then emitTag k
  else inAttributeValue None c (goto AttributeValueUnquoted k).

Definition consume (k : Tokenizer) (c : ascii) : Tokenizer :=
  match tkState k with
  | Data => if Ascii.eqb c "<" then goto TagOpen k else k
  | TagOpen =>
      if Ascii.eqb c "/" then goto EndTagOpen k
      else if isLetter c then toTagName c (newTag false k)
      else goto Data k
  | EndTagOpen =>
      if isLetter c then toTagName c (newTag true k) else goto Data k
  | TagName =>
      if isWhitespace c then goto BeforeAttributeName k
      else if Ascii.eqb c "/" then goto SelfClosingStartTag k
      else if Ascii.eqb c ">" then emitTag k
      else toTagName c k
  | BeforeAttributeName => inBeforeAttributeName c k
  | AttributeName => inAttributeName c k
  | AfterAttributeName => inAfterAttributeName c k
  | BeforeAttributeValue => inBeforeAttributeValue c k
  | AttributeValueQuoted q => inAttributeValue (Some q) c k
  | AttributeValueUnquoted => inAttributeValue None c k
  | AfterAttributeValueQuoted =>
      if isWhitespace c then goto BeforeAttributeName k
      else if Ascii.eqb c "/" then goto SelfClosingStartTag k
      else if Ascii.eqb c ">" then emitTag k
      else inBeforeAttributeName c k
  | SelfClosingStartTag =>
      if Ascii.eqb c ">" then emitTag k else inBeforeAttributeName c k
  end.

(** The start tags of a piece of HTML, in document order. *)
Definition tokenize (html : string) : list Tag :=
  reverse
    (tkEmitted
       (fold_left consume (String.list_ascii_of_string html)
          {| tkState := Data; tkEnd := false; tkName := "";
             tkAttributes := []; tkEmitted := [] |})).

Fixpoint lines (l : list string) : string :=
  match l with
  | [] => ""
  | x :: r => x ++ String lineFeed (lines r)
  end.

(** The text with a double quote wherever it has a single one. *)
Fixpoint quoted (s : string) : string :=
  match s with
  | EmptyString => EmptyString
  | String c r =>
      String (if Ascii.eqb c "'" then doubleQuote else c) (quoted r)
  end.

(** The template of [render], lines 164 to 195, as Lit hands it to the
    HTML parser: [$] stands for the marker that Lit puts in the place of a
    binding, and every double quote of the source is written as a single
    one here, which [quoted] turns back.  The value of [name] in the ninth
    line is opened by a quote and not closed. *)
Definition template : string :=
  quoted (lines
    ["<dialog";
     "  @close=$";
     "  @cancel=$";
     "  @click=$";
     "  class='dialog $'";
     "  aria-labelledby='header'";
     "  aria-describedby='content'";
     ">";
     "  <slot name='dialog_content_slot></slot>";
     "  <div class='container'>";
     "    <md-elevation></md-elevation>";
     "    <header class='header'>";
     "      <slot name='header'>";
     "        <slot name='headline-prefix'></slot>";
     "        <slot name='headline'></slot>";
     "        <slot name='headline-suffix'></slot>";
     "      </slot>";
     "    </header>";
     "    <section class='content' @scroll=$>";
     "      <slot></slot>";
     "    </section>";
     "    <footer class='footer'>";
     "      <slot name='footer'></slot>";
     "    </footer>";
     "  </div>";
     "</dialog>"]).

(** The elements of the shadow tree in document order: none before the
    first render, those of the template from then on. *)
Definition renderRoot (s : State) : list Tag :=
  match shadow (dom s) with
  | Some _ => tokenize template
  | None => []
  end.

(** [el.getAttribute(name)] on an element of the shadow tree. *)
Definition getAttribute (name : string) (t : Tag) : option string :=
  snd <$> List.find (fun a => String.eqb (fst a) name) (tagAttributes t).

(** The selectors of the [@query] fields. *)
Definition hasClass (c : string) (t : Tag) : bool :=
  bool_decide (c ∈ String.words (default "" (getAttribute "class" t))).

Definition isSlot (name : option string) (t : Tag) : bool :=
  String.eqb (tagName t) "slot"
  && bool_decide (getAttribute "name" t = name).

(** [this.renderRoot.querySelector(selector)]: the first element of the
    shadow tree that matches, [null] when there is none. *)
Definition query (selector : Tag -> bool) (s : State) : option Tag :=
  List.find selector (renderRoot s).

(** *** Scroll dividers *)

Record ScrollInfo : Type := {
  isScrollable : bool;
  isAtScrollTop : bool;
  isAtScrollBottom : bool
}.

(** The [@query] fields over the shadow tree. *)
Definition contentElement (s : State) : option Content :=
  content <$> shadow (dom s).

(** [this.dialogElement?.open], [undefined] read as [false]. *)
Definition dialogElement_open (s : State) : bool :=
  default false (dialogOpen <$> shadow (dom s)).

(** [this.containerElement], the field of [@query('.container')]. *)
Definition containerElement (s : State) : option Tag :=
  query (hasClass "container") s.

(** [Math.round]: to the nearest integer, halves upwards.  Numbers are
    exact rationals here. *)
Definition Math_round (x : Q) : Z :=
  Qfloor (x + (1 # 2))%Q.

Definition getContentScrollInfo (s : State) : ScrollInfo :=
  match hasUpdated (lit s), contentElement s with
  | true, Some c =>
      {| isScrollable := (scrollHeight c >? offsetHeight c)%Z;
         isAtScrollTop := Qeq_bool (scrollTop c) 0;
         isAtScrollBottom :=
           (Z.abs (Math_round (inject_Z (scrollHeight c) - scrollTop c)
                   - clientHeight c) <=? 2)%Z |}
  | _, _ =>
      {| isScrollable := false; isAtScrollTop := true;
         isAtScrollBottom := true |}
  end.

(** *** Focus *)

(** [el.matches('[name]')]. *)
Definition matches (name : string) (el : element) : bool :=
  bool_decide (is_Some (attrs el !! name)).

(** [el.querySelector('[name]')]: the first descendant of [el], in
    document order, that matches. *)
Fixpoint querySelector (name : string) (el : element) : option element :=
  match el with
  | Element _ cs =>
      (fix first (l : list element) : option element :=
         match l with
         | [] => None
         | c :: r =>
             if matches name c then Some c
             else match querySelector name c with
                  | Some d => Some d
                  | None => first r
                  end
         end) cs
  end.

Definition getFocusElement (s : State) : option element :=
  let selector := "autofocus" in
  let slotted := (footerSlot (dom s) ++ contentSlot (dom s))%list in
  (fix loop (l : list element) : option element :=
     match l with
     | [] => None
     | el :: r =>
         let focusEl :=
           if matches selector el then Some el
           else querySelector selector el in
         match focusEl with
         | Some f => Some f
         | None => loop r
         end
     end) slotted.

Definition focus (s : State) : State :=
  match getFocusElement s with
  | Some el => emit (Focus el) s
  | None => s
  end.

Definition blur (s : State) : State :=
  match getFocusElement s with
  | Some el => emit (Blur el) s
  | None => s
  end.

(** *** The update hooks *)

(** [updateFullscreen()]; [mediaMatches] is what the media query of the
    breakpoint answers in the current viewport. *)
Definition updateFullscreen (mediaMatches : bool) (s : State) : State :=
  let s :=
    match fullscreenQuery (priv s) with
    | Some _ => set_fullscreenQuery None s
    | None => s
    end in
  if negb (fullscreen (props s)) then write_showingFullscreen false s
  else
    let s :=
      set_fullscreenQuery (Some (fullscreenBreakpoint (props s))) s in
    write_showingFullscreen mediaMatches s.

(** [willUpdate(changed)].  [changed] is Lit's own map, so the writes to
    [opening] and [closing] land in it and [updated] sees them. *)
Definition willUpdate (mediaMatches : bool) (s : State) : State :=
  let s :=
    if has "open" (changed (lit s)) then
      let s := write_opening (open (props s)) s in
      (* only closing if was opened previously... *)
      write_closing
        (if negb (open (props s)) then get "open" (changed (lit s))
         else VBool false) s
    else s in
  if has "fullscreen" (changed (lit s))
     || has "fullscreenBreakpoint" (changed (lit s))
  then updateFullscreen mediaMatches s
  else s.

Definition reflectStateProp (ch : gmap string value) (key : string)
    (v : bool) (attribute : string) (s : State) : State :=
  if negb (has key ch) then s
  else if v then set_attributes ({[attribute]} ∪ attributes (dom s)) s
  else set_attributes (attributes (dom s) ∖ {[attribute]}) s.

(** The native [showModal()]; on a dialog that is already shown as modal
    it changes nothing. *)
Definition showModal (s : State) : State :=
  let s := emit ShowModal s in
  set_shadow
    ((fun sh => {| dialogOpen := true; content := content sh |})
       <$> shadow (dom s)) s.

(** [this.contentElement!.scrollTop = 0]. *)
Definition resetScrollTop (s : State) : State :=
  set_shadow
    ((fun sh =>
        {| dialogOpen := dialogOpen sh;
           content :=
             {| scrollTop := 0;
                scrollHeight := scrollHeight (content sh);
                offsetHeight := offsetHeight (content sh);
                clientHeight := clientHeight (content sh) |} |})
       <$> shadow (dom s)) s.

(** The call [performTransition(shouldDispatchAction)] runs up to its
    first [await] and is suspended there. *)
Definition performTransition (shouldDispatchAction : bool) (s : State)
    : State :=
  set_tasks (tasks (rt s) ++ [AtUpdateComplete shouldDispatchAction])%list s.

Definition updated (ch : gmap string value) (s : State) : State :=
  (* Reflect internal state to facilitate styling. *)
  let s := reflectStateProp ch "opening" (opening (priv s)) "opening" s in
  let s :=
    reflectStateProp ch "closing" (truthy (closing (priv s))) "closing" s in
  let s :=
    reflectStateProp ch "showingFullscreen" (showingFullscreen (priv s))
      "showing-fullscreen" s in
  let s :=
    reflectStateProp ch "showingOpen" (showingOpen (priv s))
      "showing-open" s in
  if negb (has "open" ch) then s
  else
    let s :=
      if open (props s) then showModal (resetScrollTop s) else s in
    (* Avoids dispatching initial state. *)
    let shouldDispatchAction :=
      negb (bool_decide (get "open" ch = VUndefined)) in
    performTransition shouldDispatchAction s.

(** [render()]: what the template computes from the state, which is the
    binding in the [class] attribute of the [<dialog>] element; these are
    the classes of that element. *)
Definition render (s : State) : list string :=
  let info := getContentScrollInfo s in
  ("dialog"
   :: (if isScrollable info then ["scrollable"] else [])
   ++ (if negb (isAtScrollTop info) then ["scroll-divider-header"] else [])
   ++ (if negb (isAtScrollBottom info) then ["scroll-divider-footer"]
       else [])
   ++ (if footerHidden (props s) then ["footerHidden"] else []))%list.

(** Lit commits the template; the first commit creates the shadow tree,
    with its native dialog closed and its content not yet laid out. *)
Definition commit (s : State) : State :=
  match shadow (dom s) with
  | Some _ => s
  | None =>
      set_shadow
        (Some {| dialogOpen := false;
                 content :=
                   {| scrollTop := 0; scrollHeight := 0;
                      offsetHeight := 0; clientHeight := 0 |} |}) s
  end.

(** One update cycle of Lit: [willUpdate], the template is rendered and
    committed, the map of changed properties is replaced by an empty one,
    [hasUpdated] is set (and [firstUpdated] runs, the first time: it starts
    to observe the size of the content, see [handleContentResize]),
    [updated]. *)
Definition performUpdate (mediaMatches : bool) (s : State) : State :=
  let s := willUpdate mediaMatches s in
  let ch := changed (lit s) in
  let s := commit s in
  let s := set_isUpdatePending false (set_changed ∅ s) in
  let s := set_hasUpdated true s in
  updated ch s.

(** *** The transition sequence *)

Definition dispatchActionEvent (type : string) (s : State) : State :=
  let action :=
    if open (props s) then Some "none" else currentAction (priv s) in
  emit (DispatchAction type action) s.

(** The native [close(returnValue)]: nothing on a dialog that is not open;
    otherwise the dialog is closed at once and its [close] event is
    queued. *)
Definition dialogElement_close (returnValue : string) (s : State) : State :=
  let s := emit (DialogClose returnValue) s in
  match shadow (dom s) with
  | Some sh =>
      if dialogOpen sh then
        set_closeEvents (S (closeEvents (dom s)))
          (set_shadow
             (Some {| dialogOpen := false; content := content sh |}) s)
      else s
  | None => s
  end.

(** [this.currentAction || this.defaultAction]. *)
Definition currentAction_or_default (s : State) : string :=
  match currentAction (priv s) with
  | Some a => if String.eqb a "" then defaultAction (props s) else a
  | None => defaultAction (props s)
  end.

(** From the first [await] to the second: lines 268 to 285.
    [getComputedStyle(this.containerElement!)] throws a [TypeError] when
    the field is [null], and with it the call ends.  Otherwise [duration]
    is the transition duration of the container in milliseconds, as
    [msFromTimeCSSValue] reads it from the computed style; it only decides
    between the two promises to wait for. *)
Definition performTransition_1 (duration : Z) (shouldDispatchAction : bool)
    (s : State) : State * outcome :=
  (* Focus initial element. *)
  let s := if open (props s) then focus s else s in
  let s := write_showingOpen (open (props s)) s in
  let s :=
    if shouldDispatchAction then
      dispatchActionEvent
        (if open (props s) then "opening" else "closing") s
    else s in
  (* Compute desired transition duration. *)
  match containerElement s with
  | None => (s, Rejected "TypeError")
  | Some _ =>
      (s, Suspended (AtTransitionEnd shouldDispatchAction (0 <? duration)%Z))
  end.

(** After the last [await]: lines 304 to 307. *)
Definition performTransition_3 (shouldDispatchAction : bool) (s : State)
    : State :=
  let s :=
    if shouldDispatchAction then
      dispatchActionEvent (if open (props s) then "opened" else "closed") s
    else s in
  set_currentAction None s.

(** From the second [await] on: lines 286 to 302, and to the end when the
    native dialog need not be closed. *)
Definition performTransition_2 (shouldDispatchAction : bool) (s : State)
    : State * option task :=
  let s := write_opening false s in
  let s := write_closing (VBool false) s in
  if negb (open (props s)) && dialogElement_open s then
    let closedPromise := nextPromise (rt s) in
    let s := set_nextPromise (S closedPromise) s in
    let s := set_dialogClosedResolver (Some closedPromise) s in
    let s := dialogElement_close (currentAction_or_default s) s in
    (s, Some (AtDialogClosed shouldDispatchAction closedPromise))
  else (performTransition_3 shouldDispatchAction s, None).

(** *** Native events *)

(** Modelled from the spec: [redispatchEvent] of
    [internal/controller/events.js], which is not among the sources: it
    propagates the originating event outward unchanged. *)
Definition redispatchEvent (type : string) (s : State) : State :=
  emit (Redispatch type) s.

(** Lines 352 to 357 of [handleDialogDismiss]: internal state is brought
    in sync with the dismissed native dialog. *)
Definition dismissed (type : string) (s : State) : State :=
  let s :=
    match dialogClosedResolver (priv s) with
    | Some p => set_resolved ({[p]} ∪ resolved (rt s)) s
    | None => s
    end in
  let s := set_dialogClosedResolver None s in
  let s := write_open false s in
  let s := write_opening false s in
  let s := write_closing (VBool false) s in
  redispatchEvent type s.

(** [handleDialogDismiss(event)], the listener of the native [close] and
    [cancel] events.  The boolean says whether [preventDefault()] was
    called. *)
Definition handleDialogDismiss (type : string) (s : State) : State * bool :=
  if String.eqb type "cancel" then
    let s := set_currentAction (Some (escapeKeyAction (props s))) s in
    if String.eqb (escapeKeyAction (props s)) "" then
      (emit (PreventDefault type) s, true)
    else (dismissed type s, false)
  else (dismissed type s, false).

(** A click: its target and whether its composed path goes through the
    container, if there is one. *)
Record ClickEvent : Type := {
  target : element;
  pathIncludesContainer : bool
}.

Definition handleDialogClick (event : ClickEvent) (s : State) : State :=
  if negb (open (props s)) then s
  else
    let action :=
      match attrs (target event) !! actionAttribute (props s) with
      | Some a => a
      | None =>
          if bool_decide (is_Some (containerElement s))
             && negb (pathIncludesContainer event)
          then scrimClickAction (props s)
          else ""
      end in
    let s := set_currentAction (Some action) s in
    if negb (String.eqb action "") then close action s else s.

(** [requestUpdate()] without a property. *)
Definition requestUpdate0 (s : State) : State :=
  set_isUpdatePending true s.

(** The content section is scrolled or laid out anew: the scroll listener
    and the resize observer ask for a render, the latter only while
    [showingOpen].  The throttle of [internal/motion/animation.js], which
    is not among the sources, is taken to run the callback it is given. *)
Definition setContent (c : Content) (s : State) : State :=
  set_shadow
    ((fun sh => {| dialogOpen := dialogOpen sh; content := c |})
       <$> shadow (dom s)) s.

Definition handleContentScroll (c : Content) (s : State) : State :=
  requestUpdate0 (setContent c s).

Definition handleContentResize (c : Content) (s : State) : State :=
  let s := setContent c s in
  if showingOpen (priv s) then requestUpdate0 s else s.

(** ** The event loop *)

(** The shadow tree exists: the element was rendered, and its listeners
    and observers are in place. *)
Definition isRendered (s : State) : bool :=
  bool_decide (is_Some (shadow (dom s))).

(** What can happen to the element: calls and property writes of the
    embedding application, gestures of the user, and the turns of the event
    loop (an update cycle, the resumption of a suspended transition
    sequence, a queued native event). *)
Inductive action : Type :=
| Show
| Close (a : string)
| SetOpen (v : bool)
| SetFullscreen (v : bool)
| SetFullscreenBreakpoint (v : string)
| SetFooterHidden (v : bool)
| SetDefaultAction (v : string)
| SetActionAttribute (v : string)
| SetScrimClickAction (v : string)
| SetEscapeKeyAction (v : string)
| CallFocus
| CallBlur
| Update (mediaMatches : bool)
| Resume (i : nat) (duration : Z)
| CancelGesture
| CloseEvent
| Click (event : ClickEvent)
| ContentScroll (c : Content)
| ContentResize (c : Content)
| MediaChange (mediaMatches : bool).

(** The [i]-th suspended call goes on to its next [await], or to its
    end, be it by an exception.  A call that waits for the native dialog
    goes on only once its promise is resolved. *)
Definition resume (i : nat) (duration : Z) (s : State) : option State :=
  match tasks (rt s) !! i with
  | None => None
  | Some (AtUpdateComplete sda) =>
      match performTransition_1 duration sda s with
      | (s', Suspended t) => Some (set_tasks (<[i := t]> (tasks (rt s'))) s')
      | (s', Rejected _) => Some (set_tasks (delete i (tasks (rt s'))) s')
      end
  | Some (AtTransitionEnd sda _) =>
      match performTransition_2 sda s with
      | (s', Some t) => Some (set_tasks (<[i := t]> (tasks (rt s'))) s')
      | (s', None) => Some (set_tasks (delete i (tasks (rt s'))) s')
      end
  | Some (AtDialogClosed sda p) =>
      if bool_decide (p ∈ resolved (rt s)) then
        let s' := performTransition_3 sda s in
        Some (set_tasks (delete i (tasks (rt s'))) s')
      else None
  end.

(** The user's cancellation gesture on an open native dialog: the [cancel]
    event is delivered, and unless it is prevented the dialog closes and
    queues its [close] event. *)
Definition cancelGesture (s : State) : option State :=
  if dialogElement_open s then
    let '(s', prevented) := handleDialogDismiss "cancel" s in
    if prevented then Some s'
    else
      Some (set_closeEvents (S (closeEvents (dom s')))
              (set_shadow
                 ((fun sh =>
                     {| dialogOpen := false; content := content sh |})
                    <$> shadow (dom s')) s'))
  else None.

(** A queued native [close] event is delivered. *)
Definition closeEvent (s : State) : option State :=
  match closeEvents (dom s) with
  | O => None
  | S n => Some (fst (handleDialogDismiss "close" (set_closeEvents n s)))
  end.

Definition step (a : action) (s : State) : option State :=
  match a with
  | Show => Some (show s)
  | Close a => Some (close a s)
  | SetOpen v => Some (write_open v s)
  | SetFullscreen v => Some (write_fullscreen v s)
  | SetFullscreenBreakpoint v => Some (write_fullscreenBreakpoint v s)
  | SetFooterHidden v => Some (write_footerHidden v s)
  | SetDefaultAction v => Some (write_defaultAction v s)
  | SetActionAttribute v => Some (write_actionAttribute v s)
  | SetScrimClickAction v => Some (write_scrimClickAction v s)
  | SetEscapeKeyAction v => Some (write_escapeKeyAction v s)
  | CallFocus => Some (focus s)
  | CallBlur => Some (blur s)
  | Update mediaMatches =>
      if isUpdatePending (lit s) then Some (performUpdate mediaMatches s)
      else None
  | Resume i duration => resume i duration s
  | CancelGesture => cancelGesture s
  | CloseEvent => closeEvent s
  | Click event =>
      if isRendered s then Some (handleDialogClick event s) else None
  | ContentScroll c =>
      if isRendered s then Some (handleContentScroll c s) else None
  | ContentResize c =>
      if isRendered s then Some (handleContentResize c s) else None
  | MediaChange mediaMatches =>
      match fullscreenQuery (priv s) with
      | Some _ => Some (write_showingFullscreen mediaMatches s)
      | None => None
      end
  end.

(** A run: the actions happen one after the other; [None] when one of them
    cannot happen in the state it meets. *)
Fixpoint run (l : list action) (s : State) : option State :=
  match l with
  | [] => Some s
  | a :: r =>
      match step a s with
      | Some s' => run r s'
      | None => None
      end
  end.

(** The states of the element in some page, after some run. *)
Definition reachable (s : State) : Prop :=
  exists footer body l, run l (constructed footer body) = Some s.

(** * The vocabulary of the properties *)

(** ** The hooks as chains of field updates *)

(** A reactive write is an unconditional write of the field followed by a
    conditional note in Lit's bookkeeping. *)
Definition noted_if (c : bool) (name : string) (old : value)
    (m : gmap string value) : gmap string value :=
  if c then noted name old m else m.

Definition note (name : string) (old : value) (c : bool) : State -> State :=
  upd_lit (fun l =>
    {| changed := noted_if c name old (changed l);
       isUpdatePending := c || isUpdatePending l;
       hasUpdated := hasUpdated l |}).

(** The attributes of the host after [reflectStateProp]. *)
Definition reflected (ch : gmap string value) (key : string) (v : bool)
    (attribute : string) (a : gset string) : gset string :=
  if negb (has key ch) then a
  else if v then {[attribute]} ∪ a else a ∖ {[attribute]}.

(** What [focus()] does to the outside. *)
Definition focusLog (s : State) : list effect :=
  match getFocusElement s with Some el => [Focus el] | None => [] end.

(** What the writes of [false] to [opening] and [closing] leave. *)
Definition settled (s : State) : State :=
  note "closing" (closing (priv s))
    (negb (bool_decide (VBool false = closing (priv s))))
    (set_closing (VBool false)
       (note "opening" (VBool (opening (priv s)))
          (negb (bool_decide (false = opening (priv s))))
          (set_opening false s))).

(** A change of [open] is recorded for the next update. *)
Definition openChanged (s : State) : bool := has "open" (changed (lit s)).

(** The shadow tree once [updated] has reset the scroll position and shown
    the native dialog, which it does when [b] holds. *)
Definition modalShadow (b : bool) (sh : option Shadow) : option Shadow :=
  if b then
    (fun sh =>
       {| dialogOpen := true;
          content :=
            {| scrollTop := 0; scrollHeight := scrollHeight (content sh);
               offsetHeight := offsetHeight (content sh);
               clientHeight := clientHeight (content sh) |} |}) <$> sh
  else sh.

(** The transition sequence that [updated] starts. *)
Definition spawned (ch : gmap string value) : list task :=
  if has "open" ch
  then [AtUpdateComplete (negb (bool_decide (get "open" ch = VUndefined)))]
  else [].

(** The shadow tree after a commit. *)
Definition rendered (sh : option Shadow) : Shadow :=
  default
    {| dialogOpen := false;
       content :=
         {| scrollTop := 0; scrollHeight := 0; offsetHeight := 0;
            clientHeight := 0 |} |} sh.

(** The action in the detail of a lifecycle event dispatched now. *)
Definition actionDetail (s : State) : option string :=
  if open (props s) then Some "none" else currentAction (priv s).

(** ** Invariants *)

(** [opening] and [closing] are not both set. *)
Definition exclusive (s : State) : Prop :=
  opening (priv s) && truthy (closing (priv s)) = false.

(** Some suspended call satisfies [P]. *)
Definition waiting (P : task -> bool) (l : list task) : Prop :=
  exists j t, l !! j = Some t /\ P t = true.

(** The call has not yet set [showingOpen]. *)
Definition atUpdateComplete (t : task) : bool :=
  match t with AtUpdateComplete _ => true | _ => false end.

(** Nothing is recorded as changed unless an update is pending. *)
Definition recorded (s : State) : Prop :=
  isUpdatePending (lit s) = false -> changed (lit s) = ∅.

(** [showingOpen] follows [open]: where they differ, the change of [open]
    is recorded for the next update, or a transition sequence is about to
    set [showingOpen]. *)
Definition synced (s : State) : Prop :=
  showingOpen (priv s) = open (props s)
  \/ openChanged s = true
  \/ waiting atUpdateComplete (tasks (rt s)).

(** The effect is a lifecycle event. *)
Definition isDispatch (e : effect) : bool :=
  match e with DispatchAction _ _ => true | _ => false end.

(** Before the first update the element is as constructed, but for its
    properties; from then on the shadow tree exists and the old value of
    [open] that an update is given is a boolean. *)
Definition staged (s : State) : Prop :=
  (hasUpdated (lit s) = true ->
   (forall v, changed (lit s) !! "open" = Some v -> exists b, v = VBool b)
   /\ is_Some (shadow (dom s)))
  /\ (hasUpdated (lit s) = false ->
      changed (lit s) !! "open" = Some VUndefined
      /\ shadow (dom s) = None
      /\ closeEvents (dom s) = 0
      /\ tasks (rt s) = []
      /\ isUpdatePending (lit s) = true
      /\ filter (fun e => isDispatch e = true) (log (rt s)) = []).

(** An open dialog whose state was applied shows its native dialog. *)
Definition modal (s : State) : Prop :=
  hasUpdated (lit s) = true -> open (props s) = true ->
  openChanged s = false -> dialogElement_open s = true.

(** The effect belongs to the second half of a transition sequence, lines
    286 to 307: the call of the native dialog's [close], or an [opened] or
    [closed] event. *)
Definition isLate (e : effect) : bool :=
  match e with
  | DialogClose _ => true
  | DispatchAction type _ =>
      String.eqb type "opened" || String.eqb type "closed"
  | _ => false
  end.

(** No transition sequence has come past line 278: every suspended call
    is at its first [await], no promise waits for the native dialog, and
    nothing of the second half has happened. *)
Definition cutShort (s : State) : Prop :=
  Forall (fun t => atUpdateComplete t = true) (tasks (rt s))
  /\ dialogClosedResolver (priv s) = None
  /\ Forall (fun e => isLate e = false) (log (rt s)).

Definition invariant (s : State) : Prop :=
  exclusive s /\ recorded s /\ synced s /\ staged s /\ modal s
  /\ cutShort s.

(** The event loop has nothing left to do for the element. *)
Definition quiescent (s : State) : Prop :=
  tasks (rt s) = [] /\ isUpdatePending (lit s) = false.

(** ** Sample runs *)

(** A dialog that was shown and has come to rest: the first update and its
    transition sequence, [show()], the update that applies it, the
    transition sequence, and the update that reflects [showingOpen]. *)
Definition showing : list action :=
  [Update false; Resume 0 0; Show; Update false; Resume 0 0; Update false].

Definition shownDialog : State :=
  default (constructed [] []) (run showing (constructed [] [])).

(** The dialog while it opens: [show()] was called and the update ran. *)
Definition openingDialog : State :=
  default (constructed [] [])
    (run [Update false; Resume 0 0; Show; Update false] (constructed [] [])).

(** The content section of the scenario: 500 high, 200 visible. *)
Definition tallContent (top : Q) : Content :=
  {| scrollTop := top; scrollHeight := 500; offsetHeight := 200;
     clientHeight := 200 |}.

(** The shown dialog, its content laid out as in the scenario. *)
Definition tallDialog (top : Q) : State :=
  setContent (tallContent top) shownDialog.

(** ** The scan for the element to focus *)

(** An element followed by its descendants, in document order. *)
Fixpoint subtree (el : element) : list element :=
  match el with
  | Element _ cs =>
      el :: (fix all (l : list element) : list element :=
               match l with
               | [] => []
               | c :: r => (subtree c ++ all r)%list
               end) cs
  end.

Definition descendants (el : element) : list element :=
  flat_map subtree (children el).

(** The elements marked for automatic focus among the elements assigned to
    a slot and their descendants, in the order in which a scan of the slot
    meets them. *)
Definition autofocusable (slotted : list element) : list element :=
  flat_map
    (fun el => filter (fun e => matches "autofocus" e = true) (subtree el))
    slotted.

(** The scan of the spec: the footer region first, then the content
    region. *)
Definition focusCandidates (s : State) : list element :=
  (autofocusable (footerSlot (dom s))
   ++ autofocusable (contentSlot (dom s)))%list.

(** A page whose footer holds a plain button and whose content holds a
    form with a field marked [autofocus]. *)
Definition plainButton : element := Element ∅ [].
Definition markedField : element := Element {["autofocus" := ""]} [].
Definition formPage : State :=
  show (constructed [plainButton] [Element ∅ [plainButton; markedField]]).

(** ** Lifecycle events *)

(** The lifecycle events dispatched so far. *)
Definition events (s : State) : list effect :=
  filter (fun e => isDispatch e = true) (log (rt s)).

(** The event at the beginning of a transition that is resumed now. *)
Definition preEvent (s : State) : effect :=
  DispatchAction (if open (props s) then "opening" else "closing")
    (actionDetail s).

(** A closed dialog at rest, on which [show()] was just called. *)
Definition shown : State :=
  default (constructed [] [])
    (run [Update false; Resume 0 0; Show] (constructed [] [])).

(** ** The phases of a close transition *)

(** The turns of the event loop, as opposed to what the application and
    the user do. *)
Definition internal (a : action) : bool :=
  match a with
  | Update _ | Resume _ _ | CloseEvent => true
  | _ => false
  end.

(** What a close transition does to the outside when the pending action
    is [act], which is [None] when none was given: it dispatches [closing],
    and that is all. *)
Definition closeTrace (act : option string) : list effect :=
  [DispatchAction "closing" act].

(** The dialog is open and nothing is under way: no transition sequence,
    no update, no native [close] event. *)
Definition openAtRest (s : State) : Prop :=
  open (props s) = true
  /\ quiescent s
  /\ closeEvents (dom s) = 0.

(** How far a close transition with the pending action [act] has come, in
    a run that began with the trace [l0]: [open] was set to false (0), the
    update has started the sequence (1), the sequence has dispatched
    [closing] and has ended at line 278 (2), the update that it asked for by
    its write to [showingOpen] has run (3).  All along the native dialog
    stays open. *)
Definition closingPhase (l0 : list effect) (act : option string) (k : nat)
    (s : State) : Prop :=
  open (props s) = false
  /\ currentAction (priv s) = act
  /\ dialogElement_open s = true
  /\ closeEvents (dom s) = 0
  /\ match k with
     | 0 =>
         changed (lit s) !! "open" = Some (VBool true)
         /\ isUpdatePending (lit s) = true
         /\ showingOpen (priv s) = true
         /\ log (rt s) = l0
         /\ tasks (rt s) = []
     | 1 =>
         changed (lit s) = ∅
         /\ isUpdatePending (lit s) = false
         /\ showingOpen (priv s) = true
         /\ closing (priv s) = VBool true
         /\ log (rt s) = l0
         /\ tasks (rt s) = [AtUpdateComplete true]
     | 2 =>
         openChanged s = false
         /\ isUpdatePending (lit s) = true
         /\ showingOpen (priv s) = false
         /\ closing (priv s) = VBool true
         /\ log (rt s) = (l0 ++ closeTrace act)%list
         /\ tasks (rt s) = []
     | _ =>
         changed (lit s) = ∅
         /\ isUpdatePending (lit s) = false
         /\ showingOpen (priv s) = false
         /\ closing (priv s) = VBool true
         /\ log (rt s) = (l0 ++ closeTrace act)%list
         /\ tasks (rt s) = []
     end.

(** The phase after a turn of the event loop. *)
Definition advance (k : nat) (x : action) : nat :=
  match k, x with
  | 0, Update _ => 1
  | 1, Resume _ _ => 2
  | 2, Update _ => 3
  | _, _ => k
  end.

(** ** Further vocabulary *)

(** *** Elements and states of the examples *)

(** A button of the footer marked with the action ["buy"]. *)
Definition buyButton : element := Element {["dialog-action" := "buy"]} [].

(** An element whose action attribute is present and empty. *)
Definition blankAction : element := Element {["dialog-action" := ""]} [].

(** A dialog that was never shown, at rest. *)
Definition closedDialog : State :=
  default (constructed [] [])
    (run [Update false; Resume 0 0] (constructed [] [])).

(** The same on a page with a marked field. *)
Definition closedForm : State :=
  default (constructed [] [])
    (run [Update false; Resume 0 0]
       (constructed [plainButton] [Element ∅ [plainButton; markedField]])).

(** A page with a marked field whose dialog is constructed and at once
    set open. *)
Definition openedForm : State :=
  write_open true
    (constructed [plainButton] [Element ∅ [plainButton; markedField]]).

(** The shown dialog after [fullscreen] was set and applied, in a viewport
    that matches the breakpoint. *)
Definition fullscreenDialog : State :=
  default (constructed [] [])
    (run [SetFullscreen true; Update true] shownDialog).

(** The shown dialog after [close('buy')], at rest again. *)
Definition closedByCall : State :=
  default (constructed [] [])
    (run [Close "buy"; Update false; Resume 0 0; Update false] shownDialog).

(** The shown dialog after [escapeKeyAction] was set to the empty string
    and applied. *)
Definition uncancellable : State :=
  default (constructed [] [])
    (run [SetEscapeKeyAction ""; Update false] shownDialog).

(** *** Scrolling and focus *)

(** The scroll information that [getContentScrollInfo] computes from the
    metrics [c] of a content section that was rendered. *)
Definition scrollInfoOf (c : Content) : ScrollInfo :=
  {| isScrollable := (scrollHeight c >? offsetHeight c)%Z;
     isAtScrollTop := Qeq_bool (scrollTop c) 0;
     isAtScrollBottom :=
       (Z.abs (Math_round (inject_Z (scrollHeight c) - scrollTop c)
               - clientHeight c) <=? 2)%Z |}.

(** The elements assigned to the two slots, each with its descendants. *)
Definition slottedTrees (s : State) : list element :=
  flat_map subtree (footerSlot (dom s) ++ contentSlot (dom s))%list.

(** What focusing the element [g] does to the outside. *)
Definition focusEffects (g : option element) : list effect :=
  match g with Some el => [Focus el] | None => [] end.

(** *** More invariants *)

(** The attribute of the host that styles a state says what the state is,
    unless a change of the state is still to be applied. *)
Definition reflects (key attribute : string) (v : bool) (s : State) : Prop :=
  has key (changed (lit s)) = false ->
  (attribute ∈ attributes (dom s) <-> v = true).

Definition mirrored (s : State) : Prop :=
  reflects "opening" "opening" (opening (priv s)) s
  /\ reflects "closing" "closing" (truthy (closing (priv s))) s
  /\ reflects "showingFullscreen" "showing-fullscreen"
       (showingFullscreen (priv s)) s
  /\ reflects "showingOpen" "showing-open" (showingOpen (priv s)) s.

(** The live media query is the one of the breakpoint while [fullscreen] is
    set, and there is none otherwise, unless a change of [fullscreen] or of
    the breakpoint is still to be applied. *)
Definition fullscreenApplied (s : State) : Prop :=
  has "fullscreen" (changed (lit s)) = false ->
  has "fullscreenBreakpoint" (changed (lit s)) = false ->
  fullscreenQuery (priv s)
  = (if fullscreen (props s) then Some (fullscreenBreakpoint (props s))
     else None)
  /\ (fullscreen (props s) = false -> showingFullscreen (priv s) = false).

(** *** Counting lifecycle events *)

(** The lifecycle events that begin a transition, and those that end one. *)
Definition isPre (e : effect) : bool :=
  match e with
  | DispatchAction type _ =>
      String.eqb type "opening" || String.eqb type "closing"
  | _ => false
  end.

Definition isPost (e : effect) : bool :=
  match e with
  | DispatchAction type _ =>
      String.eqb type "opened" || String.eqb type "closed"
  | _ => false
  end.

(** The call has dispatched the event that begins its transition and not
    yet the one that ends it. *)
Definition started (t : task) : bool :=
  match t with
  | AtUpdateComplete _ => false
  | AtTransitionEnd sda _ => sda
  | AtDialogClosed sda _ => sda
  end.

Definition count {A : Type} (P : A -> bool) (l : list A) : nat :=
  length (filter (fun x => P x = true) l).

(** A lifecycle event says what the dialog does: its type is one of the
    four, and [opening] and [opened] carry the action ['none']. *)
Definition wellFormed (e : effect) : bool :=
  match e with
  | DispatchAction type action =>
      if String.eqb type "opening" || String.eqb type "opened"
      then bool_decide (action = Some "none")
      else String.eqb type "closing" || String.eqb type "closed"
  | _ => true
  end.

Definition wellFormedLog (s : State) : Prop :=
  Forall (fun e => wellFormed e = true) (log (rt s)).

(** *** The phases of an open transition *)

(** The dialog is closed, its native dialog too, and nothing is under
    way. *)
Definition closedAtRest (s : State) : Prop :=
  open (props s) = false
  /\ dialogElement_open s = false
  /\ quiescent s
  /\ closeEvents (dom s) = 0.

(** What an open transition does to the outside, [g] being the element
    to focus: the native dialog is shown, the element is focused,
    [opening] is dispatched, and that is all. *)
Definition openTrace (g : option element) : list effect :=
  (ShowModal :: focusEffects g
   ++ [DispatchAction "opening" (Some "none")])%list.

(** How far an open transition has come, in a run that began with the
    trace [l0]: [show()] was called (0), the update has shown the native
    dialog and started the sequence (1), the sequence has focused the
    element, dispatched [opening] and ended at line 278 (2), the update
    that it asked for by its write to [showingOpen] has run (3). *)
Definition openingPhase (l0 : list effect) (g : option element) (k : nat)
    (s : State) : Prop :=
  open (props s) = true
  /\ closeEvents (dom s) = 0
  /\ getFocusElement s = g
  /\ match k with
     | 0 =>
         changed (lit s) !! "open" = Some (VBool false)
         /\ isUpdatePending (lit s) = true
         /\ showingOpen (priv s) = false
         /\ is_Some (shadow (dom s))
         /\ log (rt s) = l0
         /\ tasks (rt s) = []
     | 1 =>
         changed (lit s) = ∅
         /\ isUpdatePending (lit s) = false
         /\ showingOpen (priv s) = false
         /\ dialogElement_open s = true
         /\ opening (priv s) = true
         /\ log (rt s) = (l0 ++ [ShowModal])%list
         /\ tasks (rt s) = [AtUpdateComplete true]
     | 2 =>
         openChanged s = false
         /\ isUpdatePending (lit s) = true
         /\ showingOpen (priv s) = true
         /\ dialogElement_open s = true
         /\ opening (priv s) = true
         /\ log (rt s) = (l0 ++ openTrace g)%list
         /\ tasks (rt s) = []
     | _ =>
         changed (lit s) = ∅
         /\ isUpdatePending (lit s) = false
         /\ showingOpen (priv s) = true
         /\ dialogElement_open s = true
         /\ opening (priv s) = true
         /\ log (rt s) = (l0 ++ openTrace g)%list
         /\ tasks (rt s) = []
     end.

(** *** The cancellation gesture at a finer grain

    [cancelGesture] takes the native [cancel] event and its default action
    as one turn.  A browser runs the microtasks that the listener leaves
    (the update, and the part of the transition sequence that waits for
    nothing else) before the default action, so here the two are apart. *)

(** The listener of the native [cancel] event has run. *)
Definition cancelEvent (s : State) : State :=
  fst (handleDialogDismiss "cancel" s).

(** The default action of a [cancel] event that was not prevented: the
    native dialog closes, if it is still open, and queues its [close]
    event. *)
Definition cancelDefault (s : State) : State :=
  match shadow (dom s) with
  | Some sh =>
      if dialogOpen sh then
        set_closeEvents (S (closeEvents (dom s)))
          (set_shadow
             (Some {| dialogOpen := false; content := content sh |}) s)
      else s
  | None => s
  end.

(** How far a dismissal with the action [e] has come, in a run that began
    with the trace [l0] and has added [l'] to it: the listener of [cancel]
    has set [open] to false (0), the update has started the sequence (1),
    the sequence has dispatched [closing] and ended at line 278 (2).
    [native] says whether the native dialog is still open and [queued] how
    many native [close] events wait to be delivered. *)
Definition dismissPhase (l0 : list effect) (e : string) (l' : list effect)
    (k : nat) (native : bool) (queued : nat) (s : State) : Prop :=
  open (props s) = false
  /\ currentAction (priv s) = Some e
  /\ dialogElement_open s = native
  /\ closeEvents (dom s) = queued
  /\ log (rt s) = (l0 ++ l')%list
  /\ filter (fun x => isDispatch x = true) l'
     = (if decide (k < 2) then [] else closeTrace (Some e))
  /\ match k with
     | 0 =>
         changed (lit s) !! "open" = Some (VBool true)
         /\ isUpdatePending (lit s) = true
         /\ showingOpen (priv s) = true
         /\ tasks (rt s) = []
     | 1 =>
         openChanged s = false
         /\ showingOpen (priv s) = true
         /\ tasks (rt s) = [AtUpdateComplete true]
     | _ =>
         openChanged s = false
         /\ showingOpen (priv s) = false
         /\ tasks (rt s) = []
     end.

(** * Verification *)

(** ** The elements of the template *)

(** The template yields twelve elements.  The value of [name] that line
    178 leaves open runs on to the quote that was to open the value of
    [class] in the next line, so the [<div>] of the container is no tag
    but part of that value, and what was to be its class ends up as the
    name of a second attribute of the slot.  The queries for the dialog,
    the content section and the two slots find their elements; the query
    for the container finds none. *)
Lemma template_elements :
  tagName <$> tokenize template
  = ["dialog"; "slot"; "md-elevation"; "header"; "slot"; "slot"; "slot";
     "slot"; "section"; "slot"; "footer"; "slot"]
  /\ (tagName <$> tokenize template) !! 1 = Some "slot"
  /\ tagName <$> List.find (hasClass "dialog") (tokenize template)
     = Some "dialog"
  /\ tagName <$> List.find (hasClass "content") (tokenize template)
     = Some "section"
  /\ is_Some (List.find (isSlot (Some "footer")) (tokenize template))
  /\ is_Some (List.find (isSlot None) (tokenize template))
  /\ List.find (hasClass "container") (tokenize template) = None.
Proof. vm_compute. repeat split; eauto. Qed.

(** [this.containerElement] is [null], before the first render and
    after. *)
Lemma containerElement_null s : containerElement s = None.
Proof.
  unfold containerElement, query, renderRoot.
  destruct (shadow (dom s)); [|reflexivity]. vm_compute. reflexivity.
Qed.

(** ** Reasoning about states *)

Arguments has : simpl never.
Arguments get : simpl never.
Arguments noted : simpl never.

(** Projections of updated records are computed, and nothing else. *)
Ltac st :=
  cbn [props priv lit dom rt
       open fullscreen fullscreenBreakpoint footerHidden defaultAction
       actionAttribute scrimClickAction escapeKeyAction
       showingFullscreen showingOpen opening closing currentAction
       dialogClosedResolver fullscreenQuery
       changed isUpdatePending hasUpdated
       attributes shadow footerSlot contentSlot closeEvents
       dialogOpen content
       tasks nextPromise resolved log
       upd_props upd_priv upd_lit upd_dom upd_rt
       set_open set_fullscreen set_fullscreenBreakpoint set_footerHidden
       set_defaultAction set_actionAttribute set_scrimClickAction
       set_escapeKeyAction
       set_showingFullscreen set_showingOpen set_opening set_closing
       set_currentAction set_dialogClosedResolver set_fullscreenQuery
       set_changed set_isUpdatePending set_hasUpdated
       set_attributes set_shadow set_closeEvents
       set_tasks set_nextPromise set_resolved set_log
       emit requestUpdate requestUpdate0 fst snd negb andb orb
       performTransition] in *.

Arguments noted_if : simpl never.

Lemma lookup_noted_if_ne c name old m k :
  name <> k -> noted_if c name old m !! k = m !! k.
Proof.
  intros Hne. unfold noted_if, noted. destruct c; [|done].
  destruct (has name m); [done|]. by rewrite lookup_insert_ne.
Qed.

Lemma lookup_noted_if_eq c name old m :
  noted_if c name old m !! name =
  match m !! name with
  | Some v => Some v
  | None => if c then Some old else None
  end.
Proof.
  unfold noted_if, noted, has. destruct c; [|by destruct (m !! name)].
  case_bool_decide as Hs.
  - destruct Hs as [v Hv]. by rewrite Hv.
  - rewrite lookup_insert_eq. destruct (m !! name) eqn:E; [|done].
    exfalso. apply Hs. by eexists.
Qed.

Lemma has_noted_if_ne c name old m k :
  name <> k -> has k (noted_if c name old m) = has k m.
Proof. intros. unfold has. by rewrite lookup_noted_if_ne. Qed.

Lemma get_noted_if_ne c name old m k :
  name <> k -> get k (noted_if c name old m) = get k m.
Proof. intros. unfold get. by rewrite lookup_noted_if_ne. Qed.

Lemma write_note {A : Type} `{EqDecision A} name (inj : A -> value) rd wr
    (v : A) (s : State) :
  wr (rd s) s = s ->
  write name inj rd wr v s =
  note name (inj (rd s)) (negb (bool_decide (v = rd s))) (wr v s).
Proof.
  intros Heta. unfold write, note, noted_if. case_decide as Hv.
  - subst v. rewrite bool_decide_true, Heta by done.
    destruct s as [? ? [] ? ?]. reflexivity.
  - rewrite bool_decide_false by done. reflexivity.
Qed.

Ltac eta_state s := destruct s as [[] [] [] [] []]; reflexivity.

Lemma write_open_note v s :
  write_open v s =
  note "open" (VBool (open (props s)))
    (negb (bool_decide (v = open (props s)))) (set_open v s).
Proof. apply (write_note "open" VBool). eta_state s. Qed.

Lemma write_showingFullscreen_note v s :
  write_showingFullscreen v s =
  note "showingFullscreen" (VBool (showingFullscreen (priv s)))
    (negb (bool_decide (v = showingFullscreen (priv s))))
    (set_showingFullscreen v s).
Proof. apply (write_note "showingFullscreen" VBool). eta_state s. Qed.

Lemma write_showingOpen_note v s :
  write_showingOpen v s =
  note "showingOpen" (VBool (showingOpen (priv s)))
    (negb (bool_decide (v = showingOpen (priv s)))) (set_showingOpen v s).
Proof. apply (write_note "showingOpen" VBool). eta_state s. Qed.

Lemma write_opening_note v s :
  write_opening v s =
  note "opening" (VBool (opening (priv s)))
    (negb (bool_decide (v = opening (priv s)))) (set_opening v s).
Proof. apply (write_note "opening" VBool). eta_state s. Qed.

Lemma write_closing_note v s :
  write_closing v s =
  note "closing" (closing (priv s))
    (negb (bool_decide (v = closing (priv s)))) (set_closing v s).
Proof. apply (write_note "closing" id). eta_state s. Qed.

Lemma reflectStateProp_eq ch key v attribute s :
  reflectStateProp ch key v attribute s =
  set_attributes (reflected ch key v attribute (attributes (dom s))) s.
Proof.
  unfold reflectStateProp, reflected.
  destruct (negb (has key ch)); [eta_state s|]. by destruct v.
Qed.

Lemma updateFullscreen_eq mediaMatches s :
  updateFullscreen mediaMatches s =
  write_showingFullscreen (fullscreen (props s) && mediaMatches)
    (set_fullscreenQuery
       (if fullscreen (props s) then Some (fullscreenBreakpoint (props s))
        else None) s).
Proof.
  unfold updateFullscreen.
  destruct s as [[] [? ? ? ? ? ? [q|]] [] [] []]; st;
    destruct fullscreen0; reflexivity.
Qed.

Lemma focus_eq s : focus s = set_log (log (rt s) ++ focusLog s)%list s.
Proof.
  unfold focus, focusLog. destruct (getFocusElement s); [reflexivity|].
  rewrite app_nil_r. eta_state s.
Qed.

Lemma write_fullscreen_note v s :
  write_fullscreen v s =
  note "fullscreen" (VBool (fullscreen (props s)))
    (negb (bool_decide (v = fullscreen (props s)))) (set_fullscreen v s).
Proof. apply (write_note "fullscreen" VBool). eta_state s. Qed.

Lemma write_fullscreenBreakpoint_note v s :
  write_fullscreenBreakpoint v s =
  note "fullscreenBreakpoint" (VString (fullscreenBreakpoint (props s)))
    (negb (bool_decide (v = fullscreenBreakpoint (props s))))
    (set_fullscreenBreakpoint v s).
Proof. apply (write_note "fullscreenBreakpoint" VString). eta_state s. Qed.

Lemma write_footerHidden_note v s :
  write_footerHidden v s =
  note "footerHidden" (VBool (footerHidden (props s)))
    (negb (bool_decide (v = footerHidden (props s)))) (set_footerHidden v s).
Proof. apply (write_note "footerHidden" VBool). eta_state s. Qed.

Lemma write_defaultAction_note v s :
  write_defaultAction v s =
  note "defaultAction" (VString (defaultAction (props s)))
    (negb (bool_decide (v = defaultAction (props s))))
    (set_defaultAction v s).
Proof. apply (write_note "defaultAction" VString). eta_state s. Qed.

Lemma write_actionAttribute_note v s :
  write_actionAttribute v s =
  note "actionAttribute" (VString (actionAttribute (props s)))
    (negb (bool_decide (v = actionAttribute (props s))))
    (set_actionAttribute v s).
Proof. apply (write_note "actionAttribute" VString). eta_state s. Qed.

Lemma write_scrimClickAction_note v s :
  write_scrimClickAction v s =
  note "scrimClickAction" (VString (scrimClickAction (props s)))
    (negb (bool_decide (v = scrimClickAction (props s))))
    (set_scrimClickAction v s).
Proof. apply (write_note "scrimClickAction" VString). eta_state s. Qed.

Lemma write_escapeKeyAction_note v s :
  write_escapeKeyAction v s =
  note "escapeKeyAction" (VString (escapeKeyAction (props s)))
    (negb (bool_decide (v = escapeKeyAction (props s))))
    (set_escapeKeyAction v s).
Proof. apply (write_note "escapeKeyAction" VString). eta_state s. Qed.

Ltac notes :=
  rewrite ?reflectStateProp_eq, ?updateFullscreen_eq, ?focus_eq,
    ?write_open_note, ?write_showingFullscreen_note,
    ?write_showingOpen_note, ?write_opening_note, ?write_closing_note,
    ?write_fullscreen_note, ?write_fullscreenBreakpoint_note,
    ?write_footerHidden_note, ?write_defaultAction_note,
    ?write_actionAttribute_note, ?write_scrimClickAction_note,
    ?write_escapeKeyAction_note in *;
  repeat (progress unfold note, settled in * ); st;
  rewrite ?has_noted_if_ne, ?get_noted_if_ne, ?lookup_noted_if_ne in * by done.

(** *** The update cycle, flattened

    Each hook is a chain of field updates of its argument; what it does to
    the fullscreen fields, to the host's attributes and to the scroll
    position is left open. *)

(** Both sides are computed on a state given field by field. *)
Ltac chain_eq :=
  cbv [props priv lit dom rt
       open fullscreen fullscreenBreakpoint footerHidden defaultAction
       actionAttribute scrimClickAction escapeKeyAction
       showingFullscreen showingOpen opening closing currentAction
       dialogClosedResolver fullscreenQuery
       changed isUpdatePending hasUpdated
       attributes shadow footerSlot contentSlot closeEvents
       tasks nextPromise resolved log
       upd_props upd_priv upd_lit upd_dom upd_rt
       set_open set_fullscreen set_fullscreenBreakpoint set_footerHidden
       set_defaultAction set_actionAttribute set_scrimClickAction
       set_escapeKeyAction
       set_showingFullscreen set_showingOpen set_opening set_closing
       set_currentAction set_dialogClosedResolver set_fullscreenQuery
       set_changed set_isUpdatePending set_hasUpdated
       set_attributes set_shadow set_closeEvents
       set_tasks set_nextPromise set_resolved set_log
       emit requestUpdate requestUpdate0 note performTransition];
  try reflexivity.

Lemma willUpdate_flat mediaMatches s :
  exists sf fq ch p,
    willUpdate mediaMatches s =
    set_changed ch
      (set_isUpdatePending p
         (set_showingFullscreen sf
            (set_fullscreenQuery fq
               (set_closing
                  (if openChanged s then
                     if negb (open (props s))
                     then get "open" (changed (lit s)) else VBool false
                   else closing (priv s))
                  (set_opening
                     (if openChanged s then open (props s)
                      else opening (priv s)) s)))))
    /\ ch !! "open" = changed (lit s) !! "open".
Proof.
  unfold willUpdate, openChanged.
  destruct (has "open" (changed (lit s))) eqn:Hc; notes; rewrite ?Hc;
    destruct (_ || _); notes; destruct s as [[] [] [] [] []];
    (do 4 eexists; split; [chain_eq|]); notes; reflexivity.
Qed.

Lemma updated_flat ch s :
  exists a,
    updated ch s =
    set_tasks (tasks (rt s) ++ spawned ch)%list
      (set_log
         (log (rt s) ++
          if has "open" ch && open (props s) then [ShowModal] else [])%list
         (set_shadow
            (modalShadow (has "open" ch && open (props s)) (shadow (dom s)))
            (set_attributes a s))).
Proof.
  unfold updated, spawned, modalShadow, showModal, resetScrollTop. notes.
  destruct s as [[] [] [] [] []]. st.
  destruct (has "open" ch); st; [destruct open0|]; st; eexists; chain_eq;
    rewrite ?app_nil_r; try reflexivity.
  by destruct shadow0.
Qed.

Lemma performUpdate_flat mediaMatches s :
  exists sf fq a,
    performUpdate mediaMatches s =
    set_tasks (tasks (rt s) ++ spawned (changed (lit s)))%list
      (set_log
         (log (rt s) ++
          if openChanged s && open (props s) then [ShowModal] else [])%list
         (set_shadow
            (modalShadow (openChanged s && open (props s))
               (Some (rendered (shadow (dom s)))))
            (set_attributes a
               (set_hasUpdated true
                  (set_isUpdatePending false
                     (set_changed ∅
                        (set_showingFullscreen sf
                           (set_fullscreenQuery fq
                              (set_closing
                                 (if openChanged s then
                                    if negb (open (props s))
                                    then get "open" (changed (lit s))
                                    else VBool false
                                  else closing (priv s))
                                 (set_opening
                                    (if openChanged s then open (props s)
                                     else opening (priv s)) s)))))))))).
Proof.
  unfold performUpdate.
  destruct (willUpdate_flat mediaMatches s) as (sf & fq & ch & p & -> & Hch).
  st. set (s1 := set_hasUpdated _ _).
  destruct (updated_flat ch s1) as (a & ->). subst s1.
  exists sf, fq, a. unfold commit, rendered, spawned, openChanged, has, get.
  st. rewrite Hch.
  destruct s as [[] [] [] [] []]. st. destruct shadow0; chain_eq.
Qed.

(** The first part of a transition sequence is also its last. *)
Lemma performTransition_1_flat duration sda s :
  performTransition_1 duration sda s =
  (note "showingOpen" (VBool (showingOpen (priv s)))
     (negb (bool_decide (open (props s) = showingOpen (priv s))))
     (set_showingOpen (open (props s))
        (set_log
           (log (rt s)
            ++ (if open (props s) then focusLog s else [])
            ++ (if sda then
                  [DispatchAction
                     (if open (props s) then "opening" else "closing")
                     (actionDetail s)]
                else []))%list s)),
   Rejected "TypeError").
Proof.
  unfold performTransition_1, dispatchActionEvent, actionDetail.
  rewrite containerElement_null.
  f_equal. destruct (open (props s)) eqn:Ho; notes; rewrite ?Ho;
    destruct sda; st; rewrite ?Ho; destruct s as [[] [] [] [] []];
    chain_eq; by rewrite ?app_nil_r, <- ?app_assoc.
Qed.

Lemma performTransition_3_flat sda s :
  performTransition_3 sda s =
  set_currentAction None
    (set_log
       (log (rt s)
        ++ (if sda then
              [DispatchAction
                 (if open (props s) then "opened" else "closed")
                 (actionDetail s)]
            else []))%list s).
Proof.
  unfold performTransition_3, dispatchActionEvent, actionDetail.
  destruct sda; st; destruct s as [[] [] [] [] []]; chain_eq.
  by rewrite app_nil_r.
Qed.

Lemma performTransition_2_flat sda s :
  performTransition_2 sda s =
  if negb (open (props s)) && dialogElement_open s then
    (set_closeEvents (S (closeEvents (dom s)))
       (set_shadow
          ((fun sh => {| dialogOpen := false; content := content sh |})
             <$> shadow (dom s))
          (set_log (log (rt s) ++ [DialogClose (currentAction_or_default s)])
             (set_dialogClosedResolver (Some (nextPromise (rt s)))
                (set_nextPromise (S (nextPromise (rt s))) (settled s))))),
     Some (AtDialogClosed sda (nextPromise (rt s))))
  else (performTransition_3 sda (settled s), None).
Proof.
  unfold performTransition_2, settled, dialogElement_close,
    dialogElement_open, currentAction_or_default.
  notes. destruct (negb (open (props s)) && _) eqn:Hc; [|reflexivity].
  f_equal. apply andb_prop in Hc as [_ Hd].
  destruct s as [[] [] [] [] []]. st.
  destruct shadow0 as [[[] ?]|]; try discriminate. chain_eq.
Qed.

Lemma dismissed_flat type s :
  dismissed type s =
  set_log (log (rt s) ++ [Redispatch type])
    (settled
       (note "open" (VBool (open (props s)))
          (negb (bool_decide (false = open (props s))))
          (set_open false
             (set_dialogClosedResolver None
                (set_resolved
                   (match dialogClosedResolver (priv s) with
                    | Some p => {[p]} ∪ resolved (rt s)
                    | None => resolved (rt s)
                    end) s))))).
Proof.
  unfold dismissed, redispatchEvent, settled. notes.
  destruct s as [[] [? ? ? ? ? [p|] ?] [] [] []]; chain_eq.
Qed.

(** The action [a] takes [s] to [s']: the cases, with the hooks flattened. *)
Ltac step_flat Hs :=
  first
    [ progress
        (unfold show, close, resume, cancelGesture, closeEvent,
           handleDialogDismiss, handleDialogClick, handleContentScroll,
           handleContentResize, setContent, blur in Hs)
    | progress
        (rewrite ?performTransition_1_flat, ?performTransition_2_flat,
           ?performTransition_3_flat, ?dismissed_flat, ?focus_eq,
           ?containerElement_null in Hs)
    | match type of Hs with
      | context [performUpdate ?m ?s] =>
          let sf := fresh "sf" in
          let fq := fresh "fq" in
          let at_ := fresh "at_" in
          let Hflat := fresh "Hflat" in
          destruct (performUpdate_flat m s) as (sf & fq & at_ & Hflat);
          rewrite Hflat in Hs; clear Hflat
      end
    | case_match ].

Ltac step_cases Hs :=
  match type of Hs with
  | step ?a ?s = Some ?s' =>
      destruct a; unfold step in Hs; repeat step_flat Hs; simplify_eq
  end.

Lemma exclusive_step a s s' :
  exclusive s -> step a s = Some s' -> exclusive s'.
Proof.
  unfold exclusive. intros H Hs. step_cases Hs; notes; try done.
  all: by destruct (open (props s)).
Qed.

Lemma has_noted_if_eq c name old m :
  has name (noted_if c name old m) = c || has name m.
Proof.
  unfold has. rewrite lookup_noted_if_eq.
  destruct (m !! name) eqn:E.
  - rewrite !bool_decide_true by eauto. by destruct c.
  - destruct c; [by rewrite bool_decide_true by eauto|].
    apply bool_decide_ext. split; intros []; done.
Qed.

Lemma waiting_app_r P l t : P t = true -> waiting P (l ++ [t]).
Proof.
  intros Ht. exists (length l), t. split; [|done].
  by rewrite lookup_app_r, Nat.sub_diag by lia.
Qed.

Lemma waiting_app_l P l l' : waiting P l -> waiting P (l ++ l').
Proof.
  intros (j & t & Hj & Ht). exists j, t. split; [|done].
  by apply lookup_app_l_Some.
Qed.

Lemma waiting_insert_here P (l : list task) i t0 t :
  l !! i = Some t0 -> P t = true -> waiting P (<[i := t]> l).
Proof.
  intros Hi Ht. exists i, t. split; [|done].
  apply list_lookup_insert_eq. by eapply lookup_lt_Some.
Qed.

Lemma waiting_insert_other P (l : list task) i t0 t :
  l !! i = Some t0 -> P t0 = false -> waiting P l -> waiting P (<[i := t]> l).
Proof.
  intros Hi H0 (j & t' & Hj & Ht'). exists j, t'. split; [|done].
  rewrite list_lookup_insert_ne; [done|]. intros ->. congruence.
Qed.

Lemma waiting_delete P (l : list task) i t0 :
  l !! i = Some t0 -> P t0 = false -> waiting P l -> waiting P (delete i l).
Proof.
  intros Hi H0 (j & t' & Hj & Ht').
  destruct (decide (j < i)) as [Hlt|Hge].
  - exists j, t'. by rewrite list_lookup_delete_lt.
  - assert (j <> i) by (intros ->; congruence).
    exists (pred j), t'. rewrite list_lookup_delete_ge by lia.
    by replace (S (pred j)) with j by lia.
Qed.

Lemma waiting_nil P : ~ waiting P [].
Proof. by intros (j & t & Hj & _). Qed.

(** *** Invariants *)

Lemma noted_if_false name old m : noted_if false name old m = m.
Proof. reflexivity. Qed.

Ltac quiet :=
  repeat match goal with
         | H : _ || _ = false |- _ => apply orb_false_elim in H as [? ?]
         end;
  repeat match goal with
         | H : ?c = false |- context [noted_if ?c] => rewrite H
         end;
  rewrite ?noted_if_false.

Lemma recorded_step a s s' :
  recorded s -> step a s = Some s' -> recorded s'.
Proof.
  unfold recorded. intros H Hs. step_cases Hs; notes; try done.
  all: intros Hp; quiet; auto.
Qed.

Lemma synced_step a s s' :
  synced s -> step a s = Some s' -> synced s'.
Proof.
  unfold synced, openChanged. intros H Hs. step_cases Hs; notes; try done.
  all: rewrite ?has_noted_if_eq.
  all: try (case_bool_decide; simplify_eq; cbn [negb orb]; [|by auto]).
  all: try (left; congruence).
  all: try (unfold spawned; destruct (has "open" (changed (lit s))) eqn:E;
            [right; right; by apply waiting_app_r|rewrite app_nil_r]).
  all: destruct H as [H|[H|H]]; [left; congruence|by auto|].
  all: right; right; try done.
  all: match goal with
       | Hi : tasks _ !! _ = Some _ |- _ =>
           first [ by apply (waiting_insert_other _ _ _ _ _ Hi)
                 | by apply (waiting_delete _ _ _ _ Hi) ]
       end.
Qed.

Lemma filter_focusLog s :
  filter (fun e => isDispatch e = true) (focusLog s) = [].
Proof. unfold focusLog. by destruct (getFocusElement s). Qed.

(** Before the first update nothing is rendered, queued or suspended. *)
Ltac not_yet :=
  match goal with
  | Ht : tasks (rt ?s) = [], Hi : tasks (rt ?s) !! _ = Some _ |- _ =>
      rewrite Ht in Hi; discriminate
  | Hsh : shadow (dom ?s) = None, Hd : dialogElement_open ?s = true |- _ =>
      unfold dialogElement_open in Hd; rewrite Hsh in Hd; discriminate
  | Hsh : shadow (dom ?s) = None, Hd : isRendered ?s = true |- _ =>
      unfold isRendered in Hd; rewrite Hsh in Hd;
      apply bool_decide_eq_true in Hd; by destruct Hd
  | Hce : closeEvents (dom ?s) = 0, Hd : closeEvents (dom ?s) = S _ |- _ =>
      congruence
  end.

Lemma staged_step a s s' :
  staged s -> step a s = Some s' -> staged s'.
Proof.
  unfold staged. intros [HA HB] Hs.
  step_cases Hs; notes; (split; intros Hu; [clear HB|clear HA]); try done.
  all: try specialize (HA Hu) as [Hv Hsh].
  all: try specialize (HB Hu) as (Hv & Hsh & Hce & Ht & Hp & Hl).
  all: try not_yet.
  all: rewrite ?lookup_noted_if_eq, ?filter_app, ?filter_focusLog, ?Hl.
  all: try by rewrite ?Hv, ?Hp, ?orb_true_r.
  all: try (split;
            [|unfold modalShadow; try case_match; by rewrite ?fmap_is_Some]).
  all: try exact Hv.
  all: intros w; destruct (changed _ !! "open") eqn:E;
    [by auto|destruct (negb (bool_decide _)); [|done]; intros [= <-]; by eauto].
Qed.

Lemma modal_step a s s' :
  staged s -> modal s -> step a s = Some s' -> modal s'.
Proof.
  unfold modal, openChanged, dialogElement_open. intros [_ Hst] H Hs.
  step_cases Hs; notes; try done.
  all: rewrite ?has_noted_if_eq.
  all: try (intros Hu Ho [Hc Hch]%orb_false_elim;
            apply negb_false_iff, bool_decide_eq_true in Hc; subst;
            by apply H).
  all: try exact H.
  all: try (intros _ Ho; exfalso;
            match goal with
            | Hn : negb (open (props _)) = true |- _ =>
                rewrite Ho in Hn; discriminate
            | Hn : negb (open (props _)) && _ = true |- _ =>
                rewrite Ho in Hn; discriminate
            end).
  all: try (intros Hu Ho Hc; specialize (H Hu Ho Hc);
            by destruct (shadow (dom s))).
  all: try (intros Hu Ho Hc; by apply H).
  all: try (intros _ Ho; congruence).
  all: intros _ Ho _. unfold openChanged, has in *.
  all: destruct (hasUpdated (lit s)) eqn:Hu;
    [|destruct (Hst eq_refl) as (Hv & _); rewrite Hv in *;
      by rewrite bool_decide_true in * by eauto].
  specialize (H eq_refl Ho H2). unfold modalShadow, rendered.
  by destruct (shadow (dom s)).
Qed.

Lemma isLate_focusLog s :
  Forall (fun e => isLate e = false) (focusLog s).
Proof.
  unfold focusLog. destruct (getFocusElement s); by repeat constructor.
Qed.

Lemma cutShort_step a s s' :
  cutShort s -> step a s = Some s' -> cutShort s'.
Proof.
  unfold cutShort. intros (Ht & Hd & Hl) Hs.
  step_cases Hs; notes; try done.
  all: try match goal with
       | Hi : tasks _ !! _ = Some _ |- _ =>
           pose proof (proj1 (Forall_lookup _ _) Ht _ _ Hi) as Hti;
           try discriminate Hti
       end.
  all: unfold spawned; repeat case_match.
  all: rewrite ?Forall_app, ?app_nil_r; repeat split; try done.
  all: try apply isLate_focusLog.
  all: try by repeat constructor.
  all: try (by apply Forall_delete).
  all: congruence.
Qed.

Lemma invariant_constructed footer body :
  invariant (constructed footer body).
Proof.
  unfold invariant. split; [done|]. split; [done|].
  split; [by left|]. split; [|split].
  - split; [done|]. intros _. by vm_compute.
  - intros Hu. discriminate Hu.
  - by repeat split.
Qed.

Lemma invariant_step a s s' :
  invariant s -> step a s = Some s' -> invariant s'.
Proof.
  intros (He & Hr & Hs & Hst & Hm & Hc) Hstep. unfold invariant.
  exact (conj (exclusive_step _ _ _ He Hstep)
           (conj (recorded_step _ _ _ Hr Hstep)
              (conj (synced_step _ _ _ Hs Hstep)
                 (conj (staged_step _ _ _ Hst Hstep)
                    (conj (modal_step _ _ _ Hst Hm Hstep)
                       (cutShort_step _ _ _ Hc Hstep)))))).
Qed.

Lemma invariant_run l s s' :
  invariant s -> run l s = Some s' -> invariant s'.
Proof.
  revert s. induction l as [|a l IH]; intros s Hi Hr; cbn [run] in Hr.
  - by injection Hr as <-.
  - destruct (step a s) as [s1|] eqn:Hs; [|discriminate].
    apply (IH s1); [|exact Hr]. exact (invariant_step _ _ _ Hi Hs).
Qed.

Lemma invariant_reachable s : reachable s -> invariant s.
Proof.
  intros (footer & body & l & Hr).
  exact (invariant_run _ _ _ (invariant_constructed footer body) Hr).
Qed.

Lemma shownDialog_reachable : reachable shownDialog.
Proof. exists [], [], showing. vm_compute. reflexivity. Qed.

(** The scenario of a first [show()]: the native dialog is shown and the
    [opening] event is dispatched with the action ['none']; then the
    transition sequence ends at line 278, and the dialog is open and at
    rest with [opening] still set. *)
Example show_scenario :
  log (rt shownDialog)
  = [ShowModal; DispatchAction "opening" (Some "none")]
  /\ openAtRest shownDialog
  /\ opening (priv shownDialog) = true.
Proof. vm_compute. repeat split; reflexivity. Qed.


(** ** Shared lemmas *)

(** A property that every step keeps holds along every run, and in every
    reachable state when the constructor establishes it. *)
Section Preservation.

Variable P : State -> Prop.
Hypothesis P_step : forall a s s', P s -> step a s = Some s' -> P s'.

Lemma run_preserves l s s' : P s -> run l s = Some s' -> P s'.
Proof.
  revert s. induction l as [|a l IH]; intros s Hi Hr; cbn [run] in Hr.
  - by injection Hr as <-.
  - destruct (step a s) as [s1|] eqn:Hs; [|discriminate].
    apply (IH s1); [|exact Hr]. exact (P_step _ _ _ Hi Hs).
Qed.

Lemma reachable_preserves s :
  (forall footer body, P (constructed footer body)) -> reachable s -> P s.
Proof.
  intros Hc (footer & body & l & Hr).
  exact (run_preserves l _ _ (Hc footer body) Hr).
Qed.

End Preservation.

Lemma run_cons a l s :
  run (a :: l) s
  = match step a s with Some s1 => run l s1 | None => None end.
Proof. reflexivity. Qed.

Lemma run_app l1 l2 s :
  run (l1 ++ l2) s = match run l1 s with
                     | Some s1 => run l2 s1
                     | None => None
                     end.
Proof.
  revert s. induction l1 as [|a l1 IH]; intros s; cbn [run app]; [done|].
  destruct (step a s); [apply IH|done].
Qed.

Lemma reachable_run l s s' : reachable s -> run l s = Some s' -> reachable s'.
Proof.
  intros (footer & body & l0 & Hr) Hrun. exists footer, body, (l0 ++ l)%list.
  by rewrite run_app, Hr.
Qed.

Lemma has_empty key : has key (∅ : gmap string value) = false.
Proof.
  unfold has. rewrite lookup_empty. by apply bool_decide_false, is_Some_None.
Qed.

Lemma has_lookup_Some key (m : gmap string value) v :
  m !! key = Some v -> has key m = true /\ get key m = v.
Proof.
  intros H. unfold has, get. rewrite H. split; [|done].
  by rewrite bool_decide_true by eauto.
Qed.

(** At rest every change was applied: the element was rendered, and
    [showingOpen] is [open]. *)
Lemma quiescent_applied s :
  reachable s -> quiescent s ->
  changed (lit s) = ∅
  /\ hasUpdated (lit s) = true
  /\ is_Some (shadow (dom s))
  /\ showingOpen (priv s) = open (props s).
Proof.
  intros Hr [Ht Hp].
  destruct (invariant_reachable s Hr) as (_ & Hrec & Hsy & [Hst1 Hst0] & _).
  assert (Hu : hasUpdated (lit s) = true).
  { destruct (hasUpdated (lit s)); [done|].
    destruct (Hst0 eq_refl) as (_ & _ & _ & _ & Hp' & _). congruence. }
  split; [by apply Hrec|]. split; [done|].
  split; [by apply Hst1|].
  destruct Hsy as [Hsy|[Hsy|Hsy]]; [done| |].
  - unfold openChanged in Hsy. rewrite (Hrec Hp) in Hsy. discriminate.
  - rewrite Ht in Hsy. by apply waiting_nil in Hsy.
Qed.

(** An open dialog at rest shows its native dialog. *)
Lemma openAtRest_native s :
  reachable s -> openAtRest s ->
  dialogElement_open s = true /\ isRendered s = true.
Proof.
  intros Hr (Ho & Hq & _).
  destruct (quiescent_applied s Hr Hq) as (Hch & Hu & Hsh & _).
  destruct (invariant_reachable s Hr) as (_ & _ & _ & _ & Hm & _).
  split.
  - apply Hm; [done|done|]. unfold openChanged. rewrite Hch. apply has_empty.
  - unfold isRendered. by rewrite bool_decide_true.
Qed.

Lemma close_set_currentAction a b s :
  close a (set_currentAction b s) = close a s.
Proof. by destruct s as [[] [] [] [] []]. Qed.

(** Nothing of the second half of a transition sequence ever happens: the
    native dialog is not told to close, and neither [opened] nor [closed]
    is dispatched. *)
Lemma never_late s :
  reachable s ->
  (forall returnValue, DialogClose returnValue ∉ log (rt s))
  /\ (forall action, DispatchAction "opened" action ∉ log (rt s))
  /\ (forall action, DispatchAction "closed" action ∉ log (rt s)).
Proof.
  intros Hr.
  destruct (invariant_reachable s Hr) as (_ & _ & _ & _ & _ & _ & _ & Hl).
  rewrite Forall_forall in Hl.
  repeat split; intros x Hin; by specialize (Hl _ Hin).
Qed.

(** ** The properties of the specification *)

(** C3. In every state that the element reaches, whatever the calls of
    [show()] and [close()], the writes to [open], the updates, the turns of
    the transition sequences and the native dismiss events that lead to it,
    [opening] and [closing] are not both true. *)
Theorem opening_closing_never_both (s : State) :
  reachable s ->
  ~ (opening (priv s) = true /\ truthy (closing (priv s)) = true).
Proof.
  intros Hr [Ho Hc].
  destruct (invariant_reachable s Hr) as (He & _).
  unfold exclusive in He. rewrite Ho, Hc in He. discriminate.
Qed.

Lemma opening_closing_never_both_witness :
  opening (priv openingDialog) = true
  /\ ~ (opening (priv openingDialog) = true
        /\ truthy (closing (priv openingDialog)) = true).
Proof.
  split; [reflexivity|].
  apply (opening_closing_never_both openingDialog).
  exists [], [], [Update false; Resume 0 0; Show; Update false].
  vm_compute. reflexivity.
Defined.

(** C4. After any run, hence after any sequence of calls of [show()] and
    [close()] with the turns of the event loop between them, once nothing
    is left to run (no transition sequence is suspended and no update is
    pending), [showingOpen] equals [open]. *)
Theorem quiescent_showingOpen (s : State) :
  reachable s ->
  quiescent s ->
  showingOpen (priv s) = open (props s).
Proof.
  intros Hr Hq. by destruct (quiescent_applied s Hr Hq) as (_ & _ & _ & ?).
Qed.

Lemma quiescent_showingOpen_witness :
  open (props shownDialog) = true
  /\ showingOpen (priv shownDialog) = open (props shownDialog).
Proof.
  split; [reflexivity|].
  apply (quiescent_showingOpen shownDialog).
  - exists [], [], showing. vm_compute. reflexivity.
  - split; reflexivity.
Defined.

(** [Math_round] is the nearest integer, halves upwards. *)
Lemma Math_round_nearest (x : Q) :
  (inject_Z (Math_round x) <= x + (1 # 2) < inject_Z (Math_round x) + 1)%Q.
Proof.
  unfold Math_round. split; [apply Qfloor_le|].
  pose proof (Qlt_floor (x + (1 # 2))) as H.
  by rewrite inject_Z_plus in H.
Qed.

(** C9. The scroll information depends on nothing but [hasUpdated] and the
    metrics of the content section.  Before the first update, or without a
    content section, it is (not scrollable, at top, at bottom).  Otherwise
    it is at the top iff [scrollTop] is 0, and at the bottom iff
    |round(scrollHeight - scrollTop) - clientHeight| <= 2.  With
    scrollHeight 500 and both heights 200: at scrollTop 0 it is scrollable,
    at the top and not at the bottom; at scrollTop 300 it is at the
    bottom. *)
Theorem getContentScrollInfo_spec (s : State) :
  (hasUpdated (lit s) = false \/ contentElement s = None ->
   getContentScrollInfo s
   = {| isScrollable := false; isAtScrollTop := true;
        isAtScrollBottom := true |})
  /\ (forall c,
        hasUpdated (lit s) = true -> contentElement s = Some c ->
        (isScrollable (getContentScrollInfo s) = true
         <-> (offsetHeight c < scrollHeight c)%Z)
        /\ (isAtScrollTop (getContentScrollInfo s) = true
            <-> (scrollTop c == 0)%Q)
        /\ (isAtScrollBottom (getContentScrollInfo s) = true
            <-> (Z.abs (Math_round (inject_Z (scrollHeight c) - scrollTop c)
                        - clientHeight c) <= 2)%Z)
        /\ (c = tallContent 0 ->
            getContentScrollInfo s
            = {| isScrollable := true; isAtScrollTop := true;
                 isAtScrollBottom := false |})
        /\ (c = tallContent 300 ->
            isAtScrollBottom (getContentScrollInfo s) = true))
  /\ (forall s',
        hasUpdated (lit s') = hasUpdated (lit s) ->
        contentElement s' = contentElement s ->
        getContentScrollInfo s' = getContentScrollInfo s).
Proof.
  unfold getContentScrollInfo. split; [|split].
  - intros [-> | ->]; [done|]. by destruct (hasUpdated (lit s)).
  - intros c -> ->. cbn [isScrollable isAtScrollTop isAtScrollBottom].
    split; [rewrite Z.gtb_lt; tauto|].
    split; [apply Qeq_bool_iff|].
    split; [apply Z.leb_le|].
    split; intros ->; reflexivity.
  - by intros s' -> ->.
Qed.

Lemma getContentScrollInfo_spec_witness :
  getContentScrollInfo (constructed [] [])
  = {| isScrollable := false; isAtScrollTop := true;
       isAtScrollBottom := true |}
  /\ getContentScrollInfo (tallDialog 0)
     = {| isScrollable := true; isAtScrollTop := true;
          isAtScrollBottom := false |}
  /\ isAtScrollBottom (getContentScrollInfo (tallDialog 300)) = true
  /\ getContentScrollInfo (handleContentScroll (tallContent 0) shownDialog)
     = getContentScrollInfo (tallDialog 0).
Proof.
  split; [|split; [|split]].
  - apply (proj1 (getContentScrollInfo_spec (constructed [] []))).
    left. reflexivity.
  - apply (proj1 (proj2 (getContentScrollInfo_spec (tallDialog 0)))
             (tallContent 0)); vm_compute; reflexivity.
  - apply (proj1 (proj2 (getContentScrollInfo_spec (tallDialog 300)))
             (tallContent 300)); vm_compute; reflexivity.
  - apply (proj2 (proj2 (getContentScrollInfo_spec (tallDialog 0))));
      vm_compute; reflexivity.
Defined.

(** *** Focus *)

Lemma element_induction (P : element -> Prop) :
  (forall a cs, Forall P cs -> P (Element a cs)) -> forall el, P el.
Proof.
  intros H. fix IH 1. intros [a cs]. apply H.
  induction cs as [|c cs IHcs]; [constructor|].
  constructor; [apply IH|apply IHcs].
Qed.

Lemma subtree_eq el : subtree el = el :: descendants el.
Proof.
  by destruct el.
Qed.

Lemma querySelector_eq name el :
  querySelector name el
  = head (filter (fun e => matches name e = true) (descendants el)).
Proof.
  induction el as [a cs IH] using element_induction.
  unfold descendants. cbn [querySelector children].
  induction cs as [|c cs IHcs]; [done|].
  apply Forall_cons in IH as [Hc Hcs]. specialize (IHcs Hcs).
  cbn [flat_map]. rewrite subtree_eq, filter_app, filter_cons.
  destruct (matches name c) eqn:Hm.
  - by rewrite decide_True.
  - rewrite decide_False by (by intros ?). rewrite Hc, IHcs.
    by destruct (filter _ (descendants c)).
Qed.

Lemma getFocusElement_eq s : getFocusElement s = head (focusCandidates s).
Proof.
  unfold getFocusElement, focusCandidates, autofocusable.
  rewrite <- flat_map_app.
  induction (footerSlot (dom s) ++ contentSlot (dom s))%list
    as [|el l IH]; [done|].
  cbn [flat_map]. rewrite IH, subtree_eq, filter_cons, querySelector_eq.
  destruct (matches "autofocus" el) eqn:Hm.
  - by rewrite decide_True.
  - rewrite decide_False by (by intros ?).
    by destruct (filter _ (descendants el)).
Qed.

(** C8. The element that [getFocusElement] finds is the first one marked
    [autofocus] in a scan of the elements slotted in the footer and then of
    those slotted in the content, each followed by its descendants.  When
    an open transition goes on after its first [await], that element is
    focused, before the [opening] event if there is one; when no element is
    marked, [focus()] changes nothing. *)
Theorem initial_focus (s : State) :
  getFocusElement s = head (focusCandidates s)
  /\ (forall duration sda,
        open (props s) = true ->
        log (rt (fst (performTransition_1 duration sda s)))
        = (log (rt s)
           ++ match head (focusCandidates s) with
              | Some el => [Focus el]
              | None => []
              end
           ++ (if sda then [DispatchAction "opening" (Some "none")]
               else []))%list)
  /\ (head (focusCandidates s) = None -> focus s = s).
Proof.
  split; [apply getFocusElement_eq|]. split.
  - intros duration sda Ho. rewrite performTransition_1_flat.
    unfold note, actionDetail, focusLog. st.
    by rewrite Ho, getFocusElement_eq.
  - intros Hn. unfold focus. by rewrite getFocusElement_eq, Hn.
Qed.

Lemma initial_focus_witness :
  getFocusElement formPage = Some markedField
  /\ log (rt (fst (performTransition_1 0 true formPage)))
     = [Focus markedField; DispatchAction "opening" (Some "none")]
  /\ focus (constructed [plainButton] []) = constructed [plainButton] [].
Proof.
  split; [|split].
  - rewrite (proj1 (initial_focus formPage)). vm_compute. reflexivity.
  - rewrite (proj1 (proj2 (initial_focus formPage)) 0%Z true)
      by (vm_compute; reflexivity).
    vm_compute. reflexivity.
  - apply (proj2 (proj2 (initial_focus (constructed [plainButton] [])))).
    vm_compute. reflexivity.
Defined.

(** *** Clicks *)

(** C10. A click while the dialog is open, on a target without the action
    attribute and with the container in its path, resolves to the empty
    action, which is recorded as [currentAction], and [close()] is not
    called: [open] stays true, nothing is dispatched, no update is asked
    for and no transition sequence starts.  A click while [open] is false
    changes nothing at all. *)
Theorem click_inside_is_inert (event : ClickEvent) (s : State) :
  (open (props s) = true ->
   attrs (target event) !! actionAttribute (props s) = None ->
   pathIncludesContainer event = true ->
   handleDialogClick event s = set_currentAction (Some "") s
   /\ open (props (handleDialogClick event s)) = true
   /\ lit (handleDialogClick event s) = lit s
   /\ rt (handleDialogClick event s) = rt s)
  /\ (open (props s) = false -> handleDialogClick event s = s).
Proof.
  unfold handleDialogClick. split.
  - intros Ho Ha Hp. rewrite Ho, Ha, Hp, andb_false_r. cbn [negb].
    rewrite String.eqb_refl. cbn [negb]. st. by rewrite Ho.
  - by intros ->.
Qed.

Lemma click_inside_is_inert_witness :
  handleDialogClick
    {| target := plainButton; pathIncludesContainer := true |} shownDialog
  = set_currentAction (Some "") shownDialog
  /\ handleDialogClick
       {| target := plainButton; pathIncludesContainer := false |}
       (constructed [] [])
     = constructed [] [].
Proof.
  split.
  - apply (proj1 (click_inside_is_inert
                    {| target := plainButton; pathIncludesContainer := true |}
                    shownDialog)); vm_compute; reflexivity.
  - apply (proj2 (click_inside_is_inert
                    {| target := plainButton;
                       pathIncludesContainer := false |}
                    (constructed [] []))).
    reflexivity.
Defined.

(** *** Writes that change nothing *)

(** C6. A write of its current value to [open] leaves the element as it
    is; so do [show()] on an open dialog and the assignment to [open] in
    [close()] on a closed one, of which only the recorded action remains.
    When no change of [open] was recorded before such a write, the next
    update does not recompute [opening] and [closing], starts no transition
    sequence and dispatches nothing. *)
Theorem same_value_write_is_inert (s : State) :
  write_open (open (props s)) s = s
  /\ (open (props s) = true -> show s = s)
  /\ (open (props s) = false ->
      forall action, close action s = set_currentAction (Some action) s)
  /\ (openChanged s = false ->
      forall mediaMatches,
        let s' := performUpdate mediaMatches (write_open (open (props s)) s) in
        opening (priv s') = opening (priv s)
        /\ closing (priv s') = closing (priv s)
        /\ tasks (rt s') = tasks (rt s)
        /\ log (rt s') = log (rt s)).
Proof.
  assert (Hw : write_open (open (props s)) s = s).
  { unfold write_open, write. by rewrite decide_True. }
  split; [exact Hw|]. split; [|split].
  - intros Ho. unfold show. by rewrite <- Ho at 1.
  - intros Ho action. unfold close, write_open, write.
    by rewrite decide_True.
  - intros Hc mediaMatches. rewrite Hw.
    destruct (performUpdate_flat mediaMatches s) as (sf & fq & a & Hflat).
    cbv zeta. rewrite Hflat. unfold spawned. unfold openChanged in Hc.
    st. unfold openChanged. rewrite Hc. cbn [andb].
    by rewrite !app_nil_r.
Qed.

Lemma same_value_write_is_inert_witness :
  show shownDialog = shownDialog
  /\ close "buy" (constructed [] [])
     = set_currentAction (Some "buy") (constructed [] [])
  /\ log (rt (performUpdate false (show shownDialog))) = log (rt shownDialog).
Proof.
  split; [|split].
  - apply (proj1 (proj2 (same_value_write_is_inert shownDialog))).
    vm_compute. reflexivity.
  - apply (proj1 (proj2 (proj2
             (same_value_write_is_inert (constructed [] []))))).
    reflexivity.
  - change (show shownDialog)
      with (write_open (open (props shownDialog)) shownDialog).
    apply (proj2 (proj2 (proj2 (same_value_write_is_inert shownDialog)))).
    vm_compute. reflexivity.
Defined.

(** *** Which transitions dispatch *)

Lemma performTransition_1_events duration sda s :
  events (fst (performTransition_1 duration sda s))
  = (events s ++ if sda then [preEvent s] else [])%list.
Proof.
  rewrite performTransition_1_flat. unfold events, note, preEvent. st.
  rewrite !filter_app.
  replace (filter _ (if open (props s) then focusLog s else [])) with
    (@nil effect) by (destruct (open (props s)); by rewrite ?filter_focusLog).
  by destruct sda.
Qed.

(** C7, as the code has it.  The update that follows the construction
    always applies [open], with [undefined] as its old value, and it is the
    only one to start a transition sequence with [shouldDispatchAction]
    false; every later update that applies a change of [open] starts one
    with [shouldDispatchAction] true, and an update that applies none
    starts none.  A sequence with the flag false dispatches no lifecycle
    event.  With the flag true it dispatches one event, [opening] or
    [closing], when it goes on after its first [await]; there it ends with
    a [TypeError], so that the second event of the pair, [opened] or
    [closed], is never dispatched.  So an update that applies a change of
    [open], followed by the sequence it starts, dispatches nothing when it
    is the first update and the first event of the pair otherwise, and
    leaves no sequence behind. *)
Theorem shouldDispatchAction_only_after_first_update (s : State) :
  reachable s ->
  (hasUpdated (lit s) = false ->
   isUpdatePending (lit s) = true
   /\ changed (lit s) !! "open" = Some VUndefined)
  /\ (forall mediaMatches,
        tasks (rt (performUpdate mediaMatches s))
        = (tasks (rt s)
           ++ if openChanged s then [AtUpdateComplete (hasUpdated (lit s))]
              else [])%list)
  /\ (forall duration sda x,
        events (fst (performTransition_1 duration sda x))
        = (events x ++ if sda then [preEvent x] else [])%list
        /\ snd (performTransition_1 duration sda x) = Rejected "TypeError")
  /\ (forall mediaMatches duration,
        isUpdatePending (lit s) = true ->
        openChanged s = true ->
        tasks (rt s) = [] ->
        exists s',
          run [Update mediaMatches; Resume 0 duration] s = Some s'
          /\ events s'
             = (events s
                ++ if hasUpdated (lit s) then [preEvent s] else [])%list
          /\ tasks (rt s') = [])
  /\ (forall action,
        (DispatchAction "opened" action ∉ log (rt s))
        /\ (DispatchAction "closed" action ∉ log (rt s))).
Proof.
  intros Hr.
  destruct (invariant_reachable s Hr) as (_ & _ & _ & [HA HB] & _).
  assert (Hsp : spawned (changed (lit s))
                = if openChanged s then [AtUpdateComplete (hasUpdated (lit s))]
                  else []).
  { unfold spawned, openChanged, has, get.
    destruct (hasUpdated (lit s)) eqn:Hu.
    + destruct (HA eq_refl) as [Hv _].
      destruct (changed (lit s) !! "open") as [v|] eqn:E.
      * destruct (Hv v eq_refl) as [b ->].
        rewrite bool_decide_true by eauto. cbn [default].
        by rewrite bool_decide_false.
      * by rewrite bool_decide_false by (by intros [? ?]).
    + destruct (HB eq_refl) as (-> & _).
      rewrite bool_decide_true by eauto. cbn [default].
      by rewrite bool_decide_true. }
  split; [|split; [|split; [|split]]].
  - intros Hu. destruct (HB Hu) as (Hv & _ & _ & _ & Hp & _). done.
  - intros mediaMatches.
    destruct (performUpdate_flat mediaMatches s) as (sf & fq & a & ->). st.
    by rewrite Hsp.
  - intros duration sda x. split; [apply performTransition_1_events|].
    by rewrite performTransition_1_flat.
  - intros mediaMatches duration Hp Hc Ht. cbn [run step]. rewrite Hp.
    destruct (performUpdate_flat mediaMatches s) as (sf & fq & a & Hflat).
    set (s1 := performUpdate mediaMatches s) in *.
    assert (H1 : tasks (rt s1) = [AtUpdateComplete (hasUpdated (lit s))]
                 /\ events s1 = events s
                 /\ preEvent s1 = preEvent s).
    { rewrite Hflat, Hsp, Hc, Ht. unfold events, preEvent, actionDetail. st.
      split; [done|]. split; [|done]. rewrite filter_app.
      by destruct (open (props s)); cbn; rewrite app_nil_r. }
    destruct H1 as (Ht1 & He1 & Hpre1). clearbody s1. clear Hflat.
    unfold resume. rewrite Ht1. cbn [lookup list_lookup].
    pose proof (performTransition_1_events duration (hasUpdated (lit s)) s1)
      as He2.
    rewrite performTransition_1_flat in *. cbn [fst] in He2.
    eexists. split; [reflexivity|]. split.
    + unfold events, note in *. st. by rewrite He2, He1, Hpre1.
    + unfold note. st. by rewrite Ht1.
  - intros action. destruct (never_late s Hr) as (_ & Ho & Hc). by split.
Qed.

Lemma shouldDispatchAction_only_after_first_update_witness :
  tasks (rt (performUpdate false (constructed [] [])))
  = [AtUpdateComplete false]
  /\ tasks (rt (performUpdate false shown)) = [AtUpdateComplete true]
  /\ (exists s',
        run [Update false; Resume 0 0] shown = Some s'
        /\ events s' = [DispatchAction "opening" (Some "none")]
        /\ tasks (rt s') = [])
  /\ DispatchAction "opened" (Some "none") ∉ log (rt shownDialog).
Proof.
  assert (Hc : reachable (constructed [] [])) by (by exists [], [], []).
  assert (Hs : reachable shown).
  { exists [], [], [Update false; Resume 0 0; Show].
    vm_compute. reflexivity. }
  split; [|split; [|split]].
  - apply (proj1 (proj2 (shouldDispatchAction_only_after_first_update
                           (constructed [] []) Hc))).
  - rewrite (proj1 (proj2 (shouldDispatchAction_only_after_first_update
                             shown Hs)) false).
    vm_compute. reflexivity.
  - destruct (proj1 (proj2 (proj2 (proj2
                (shouldDispatchAction_only_after_first_update shown Hs))))
                false 0%Z) as (s' & Hrun & He & Ht);
      [vm_compute; reflexivity..|].
    exists s'. split; [exact Hrun|]. split; [|exact Ht].
    rewrite He. vm_compute. reflexivity.
  - apply (proj2 (proj2 (proj2 (proj2
             (shouldDispatchAction_only_after_first_update
                shownDialog shownDialog_reachable))))).
Defined.

(** *** A close transition, from the call to where it ends *)

Lemma dialogElement_open_performUpdate mediaMatches s :
  open (props s) = false ->
  dialogElement_open (performUpdate mediaMatches s) = dialogElement_open s.
Proof.
  intros Ho.
  destruct (performUpdate_flat mediaMatches s) as (sf & fq & a & ->).
  unfold dialogElement_open, modalShadow, rendered. st.
  rewrite Ho, andb_false_r. by destruct (shadow (dom s)).
Qed.

Lemma closingPhase_update l0 act k s mediaMatches :
  closingPhase l0 act k s ->
  isUpdatePending (lit s) = true ->
  closingPhase l0 act (advance k (Update mediaMatches))
    (performUpdate mediaMatches s).
Proof.
  intros (Ho & Hca & Hn & Hq & Hk) Hp.
  pose proof (dialogElement_open_performUpdate mediaMatches s Ho) as Hd.
  destruct (performUpdate_flat mediaMatches s) as (sf & fq & at_ & Hflat).
  unfold closingPhase. rewrite Hd. rewrite Hflat.
  unfold openChanged, spawned, has, get in *. st.
  rewrite Ho, Hca, Hn, Hq, andb_false_r.
  do 4 (split; [done|]).
  destruct k as [|[|[|k]]]; cbn [advance].
  - destruct Hk as (Hch & _ & Hso & Hl & Ht).
    rewrite Hch, Hl, Ht, Hso, app_nil_r. cbn [negb default app].
    rewrite bool_decide_true by eauto. by rewrite bool_decide_false.
  - destruct Hk as (_ & Hp' & _). congruence.
  - destruct Hk as (Hc & _ & Hso & Hcl & Hl & Ht).
    rewrite Hc, Hl, Ht, Hso, Hcl, !app_nil_r. done.
  - destruct Hk as (_ & Hp' & _). congruence.
Qed.

Lemma closingPhase_resume l0 act k s i duration s' :
  closingPhase l0 act k s ->
  resume i duration s = Some s' ->
  closingPhase l0 act (advance k (Resume i duration)) s'.
Proof.
  intros (Ho & Hca & Hn & Hq & Hk) Hs. unfold resume in Hs.
  destruct k as [|[|[|k]]]; cbn [advance].
  - destruct Hk as (_ & _ & _ & _ & Ht). by rewrite Ht in Hs.
  - destruct Hk as (Hch & Hp & Hso & Hcl & Hl & Ht). rewrite Ht in Hs.
    destruct i as [|i]; [|done]. cbn [lookup list_lookup] in Hs.
    rewrite performTransition_1_flat in Hs. injection Hs as <-.
    unfold closingPhase, openChanged, actionDetail, dialogElement_open,
      closeTrace in *.
    notes. rewrite ?Ho, ?Hl, ?Hq, ?Hn, ?Hca, ?Ht, ?Hch, ?Hso, ?Hcl, ?Hp.
    rewrite has_empty. by rewrite bool_decide_false.
  - destruct Hk as (_ & _ & _ & _ & _ & Ht). by rewrite Ht in Hs.
  - destruct Hk as (_ & _ & _ & _ & _ & Ht). by rewrite Ht in Hs.
Qed.

Lemma closingPhase_step l0 act k s x s' :
  closingPhase l0 act k s ->
  internal x = true ->
  step x s = Some s' ->
  closingPhase l0 act (advance k x) s'.
Proof.
  intros Hk Hx Hs. destruct x; try discriminate Hx; unfold step in Hs.
  - destruct (isUpdatePending (lit s)) eqn:Hp; [|done]. injection Hs as <-.
    by apply closingPhase_update.
  - by eapply closingPhase_resume.
  - destruct Hk as (_ & _ & _ & Hq & _). unfold closeEvent in Hs.
    by rewrite Hq in Hs.
Qed.

Lemma advance_le k x : k <= advance k x.
Proof. destruct k as [|[|[|k]]], x; cbn; lia. Qed.

Lemma closingPhase_run l0 act l :
  Forall (fun x => internal x = true) l ->
  forall k s s',
    closingPhase l0 act k s ->
    run l s = Some s' ->
    exists k', k <= k' /\ closingPhase l0 act k' s'.
Proof.
  induction 1 as [|x l Hx Hl IH]; intros k s s' Hk Hr; cbn [run] in Hr.
  - injection Hr as <-. by exists k.
  - destruct (step x s) as [s1|] eqn:Hs; [|done].
    destruct (IH _ _ _ (closingPhase_step _ _ _ _ _ _ Hk Hx Hs) Hr)
      as (k' & Hle & Hk').
    exists k'. split; [|done]. pose proof (advance_le k x). lia.
Qed.

Lemma closingPhase_log l0 act k s :
  closingPhase l0 act k s ->
  log (rt s) = (l0 ++ take (k - 1) (closeTrace act))%list.
Proof.
  intros (_ & _ & _ & _ & Hk).
  destruct k as [|[|[|k]]]; cbn [Nat.sub].
  - destruct Hk as (_ & _ & _ & -> & _). by rewrite app_nil_r.
  - destruct Hk as (_ & _ & _ & _ & -> & _). by rewrite app_nil_r.
  - by destruct Hk as (_ & _ & _ & _ & -> & _).
  - by destruct Hk as (_ & _ & _ & _ & -> & _).
Qed.

(** [open] is set to false on an open dialog at rest, the pending action
    being [act]. *)
Lemma closingPhase_start s act :
  reachable s ->
  openAtRest s ->
  closingPhase (log (rt s)) act 0 (write_open false (set_currentAction act s)).
Proof.
  intros Hr Hrest. destruct (openAtRest_native s Hr Hrest) as [Hn _].
  destruct Hrest as (Ho & Hq & Hce).
  destruct (quiescent_applied s Hr Hq) as (Hch & _ & _ & Hso).
  destruct Hq as [Ht Hp].
  unfold closingPhase, dialogElement_open in *. notes.
  rewrite Ho, Hch, Hp, Hso, lookup_noted_if_eq, lookup_empty.
  by rewrite bool_decide_false.
Qed.

(** A close transition run to where it ends, turn by turn. *)
Lemma closingPhase_complete l0 act s mediaMatches duration mediaMatches' :
  closingPhase l0 act 0 s ->
  exists s',
    run [Update mediaMatches; Resume 0 duration; Update mediaMatches'] s
    = Some s'
    /\ closingPhase l0 act 3 s'.
Proof.
  intros H0. cbn [run step].
  assert (Hp0 : isUpdatePending (lit s) = true)
    by (by destruct H0 as (_ & _ & _ & _ & _ & ? & _)).
  rewrite Hp0.
  pose proof (closingPhase_update _ _ _ _ mediaMatches H0 Hp0) as H1.
  cbn [advance] in H1. set (s1 := performUpdate mediaMatches s) in *.
  assert (exists s2, resume 0 duration s1 = Some s2) as [s2 Hs2].
  { destruct H1 as (_ & _ & _ & _ & _ & _ & _ & _ & _ & Ht). unfold resume.
    rewrite Ht. cbn [lookup list_lookup].
    rewrite performTransition_1_flat. by eexists. }
  rewrite Hs2.
  pose proof (closingPhase_resume _ _ _ _ _ _ _ H1 Hs2) as H2.
  cbn [advance] in H2.
  assert (Hp2 : isUpdatePending (lit s2) = true)
    by (by destruct H2 as (_ & _ & _ & _ & _ & ? & _)).
  rewrite Hp2. eexists. split; [reflexivity|].
  exact (closingPhase_update _ _ _ _ mediaMatches' H2 Hp2).
Qed.

(** C2, as the code has it.  Let the dialog be open and at rest, and let
    [close(a)] be called.  The update starts the transition sequence, and
    the sequence dispatches the [closing] event with the action [a]; there
    it ends, at line 278, and the element comes to rest with [closing]
    still set and the native dialog still open.  Whatever turns the event
    loop takes after the call, what the element has done to the outside is
    nothing or that one event.  And whatever happens after the call, be it
    calls or gestures, the native dialog is never told to close and no
    [closed] event is ever dispatched. *)
Theorem close_transition_ends_after_closing (s : State) (a : string) :
  reachable s ->
  openAtRest s ->
  (forall mediaMatches duration mediaMatches',
     exists s',
       run [Close a; Update mediaMatches; Resume 0 duration;
            Update mediaMatches'] s = Some s'
       /\ log (rt s')
          = (log (rt s) ++ [DispatchAction "closing" (Some a)])%list
       /\ quiescent s'
       /\ closing (priv s') = VBool true
       /\ dialogElement_open s' = true)
  /\ (forall l s',
        Forall (fun x => internal x = true) l ->
        run (Close a :: l) s = Some s' ->
        exists n,
          log (rt s')
          = (log (rt s) ++ take n [DispatchAction "closing" (Some a)])%list)
  /\ (forall l s',
        run (Close a :: l) s = Some s' ->
        (forall returnValue, DialogClose returnValue ∉ log (rt s'))
        /\ (forall action, DispatchAction "closed" action ∉ log (rt s'))).
Proof.
  intros Hr Hrest.
  pose proof (closingPhase_start s (Some a) Hr Hrest) as H0.
  change (write_open false (set_currentAction (Some a) s)) with (close a s)
    in H0.
  split; [|split].
  - intros mediaMatches duration mediaMatches'.
    destruct (closingPhase_complete _ _ _ mediaMatches duration mediaMatches'
                H0) as (s' & Hrun & H3).
    exists s'. split; [exact Hrun|].
    destruct H3 as (_ & _ & Hn & _ & _ & Hp & _ & Hcl & Hl & Ht).
    by repeat split.
  - intros l s' Hl Hrun. cbn [run step] in Hrun.
    destruct (closingPhase_run _ _ _ Hl _ _ _ H0 Hrun) as (k & _ & Hk).
    eexists. by apply closingPhase_log.
  - intros l s' Hrun.
    destruct (never_late s' (reachable_run _ _ _ Hr Hrun)) as (Hd & _ & Hc).
    by split.
Qed.

Lemma close_transition_ends_after_closing_witness :
  exists s',
    run [Close "buy"; Update false; Resume 0 300; Update false] shownDialog
    = Some s'
    /\ log (rt s')
       = (log (rt shownDialog) ++ [DispatchAction "closing" (Some "buy")])%list
    /\ quiescent s'
    /\ closing (priv s') = VBool true
    /\ dialogElement_open s' = true.
Proof.
  assert (Ho : openAtRest shownDialog).
  { vm_compute. repeat split; reflexivity. }
  apply (proj1 (close_transition_ends_after_closing shownDialog "buy"
                  shownDialog_reachable Ho)).
Defined.

(** *** The action of a close without one *)

(** C1, as the code has it.  On an open dialog at rest, [close('')] is
    followed to where its transition sequence ends: the [closing] event
    carries the empty action, the one that was passed, whatever the default
    action is; and no transition sequence is left that could dispatch a
    [closed] event. *)
Theorem close_without_action_keeps_empty_action (s : State) :
  reachable s ->
  openAtRest s ->
  forall mediaMatches duration mediaMatches',
  exists s',
    run [Close ""; Update mediaMatches; Resume 0 duration;
         Update mediaMatches'] s = Some s'
    /\ log (rt s') = (log (rt s) ++ [DispatchAction "closing" (Some "")])%list
    /\ quiescent s'.
Proof.
  intros Hr Hrest mediaMatches duration mediaMatches'.
  pose proof (closingPhase_start s (Some "") Hr Hrest) as H0.
  change (write_open false (set_currentAction (Some "") s)) with (close "" s)
    in H0.
  destruct (closingPhase_complete _ _ _ mediaMatches duration mediaMatches'
              H0) as (s' & Hrun & H3).
  exists s'. split; [exact Hrun|].
  by destruct H3 as (_ & _ & _ & _ & _ & Hp & _ & _ & Hl & Ht).
Qed.

Lemma close_without_action_keeps_empty_action_witness :
  defaultAction (props shownDialog) = "close"
  /\ exists s',
       run [Close ""; Update false; Resume 0 0; Update false] shownDialog
       = Some s'
       /\ log (rt s')
          = (log (rt shownDialog)
             ++ [DispatchAction "closing" (Some "")])%list
       /\ quiescent s'.
Proof.
  split; [reflexivity|].
  apply (close_without_action_keeps_empty_action shownDialog
           shownDialog_reachable).
  vm_compute. repeat split; reflexivity.
Defined.

(** *** A cancellation that is disabled *)

(** With [escapeKeyAction] empty, the listener of the native [cancel]
    event prevents the default and leaves everything as it is, but for
    [currentAction], which it has overwritten with the empty string before
    it returns. *)
Lemma handleDialogDismiss_cancel_disabled s :
  escapeKeyAction (props s) = "" ->
  handleDialogDismiss "cancel" s
  = (emit (PreventDefault "cancel") (set_currentAction (Some "") s), true).
Proof.
  intros He. unfold handleDialogDismiss.
  cbn [String.eqb Ascii.eqb Bool.eqb]. st. by rewrite He.
Qed.

(** C5, as the code has it.  With [escapeKeyAction] empty, the listener
    of the native [cancel] event calls [preventDefault()] and leaves
    [open], [opening], [closing], [showingOpen], the pending promise, Lit's
    bookkeeping, the DOM and the suspended calls as they are, and it
    dispatches nothing; but it has overwritten [currentAction] with the
    empty string.  On an open dialog at rest this is seen as soon as [open]
    is set to false: the [closing] event carries the empty string, and not
    the action that was pending before the gesture. *)
Theorem disabled_cancel_overwrites_currentAction (s : State) :
  escapeKeyAction (props s) = "" ->
  let s1 := fst (handleDialogDismiss "cancel" s) in
  snd (handleDialogDismiss "cancel" s) = true
  /\ (props s1 = props s
      /\ opening (priv s1) = opening (priv s)
      /\ closing (priv s1) = closing (priv s)
      /\ showingOpen (priv s1) = showingOpen (priv s)
      /\ dialogClosedResolver (priv s1) = dialogClosedResolver (priv s)
      /\ lit s1 = lit s
      /\ dom s1 = dom s
      /\ tasks (rt s1) = tasks (rt s)
      /\ resolved (rt s1) = resolved (rt s)
      /\ log (rt s1) = (log (rt s) ++ [PreventDefault "cancel"])%list)
  /\ currentAction (priv s1) = Some ""
  /\ (reachable s -> openAtRest s ->
      step CancelGesture s = Some s1
      /\ forall mediaMatches duration mediaMatches',
         exists s',
           run [SetOpen false; Update mediaMatches; Resume 0 duration;
                Update mediaMatches'] s1 = Some s'
           /\ log (rt s')
              = (log (rt s)
                 ++ [PreventDefault "cancel";
                     DispatchAction "closing" (Some "")])%list).
Proof.
  intros He. cbv zeta. rewrite handleDialogDismiss_cancel_disabled by done.
  cbn [fst snd]. split; [done|]. split; [by repeat split|]. split; [done|].
  intros Hr Hrest. destruct (openAtRest_native s Hr Hrest) as [Hn _].
  assert (Hstep : step CancelGesture s
                  = Some (emit (PreventDefault "cancel")
                            (set_currentAction (Some "") s))).
  { cbn [step]. unfold cancelGesture.
    by rewrite Hn, handleDialogDismiss_cancel_disabled. }
  split; [exact Hstep|].
  intros mediaMatches duration mediaMatches'.
  set (s1 := emit _ _) in *.
  assert (Hr1 : reachable s1) by (by apply (reachable_run [CancelGesture] s);
    [|cbn [run]; rewrite Hstep]).
  assert (Hrest1 : openAtRest s1) by (by destruct Hrest as (? & [? ?] & ?)).
  pose proof (closingPhase_start s1 (Some "") Hr1 Hrest1) as H0.
  replace (set_currentAction (Some "") s1) with s1 in H0
    by (subst s1; by destruct s as [[] [] [] [] []]).
  destruct (closingPhase_complete _ _ _ mediaMatches duration mediaMatches'
              H0) as (s' & Hrun & H3).
  exists s'. split; [exact Hrun|].
  destruct H3 as (_ & _ & _ & _ & _ & _ & _ & _ & -> & _).
  subst s1. st. by rewrite <- app_assoc.
Qed.

Lemma disabled_cancel_overwrites_currentAction_witness :
  currentAction (priv uncancellable) = None
  /\ currentAction (priv (fst (handleDialogDismiss "cancel" uncancellable)))
     = Some ""
  /\ exists s',
       run [CancelGesture; SetOpen false; Update false; Resume 0 0;
            Update false] uncancellable = Some s'
       /\ log (rt s')
          = (log (rt uncancellable)
             ++ [PreventDefault "cancel";
                 DispatchAction "closing" (Some "")])%list.
Proof.
  assert (He : escapeKeyAction (props uncancellable) = "")
    by (vm_compute; reflexivity).
  assert (Hr : reachable uncancellable).
  { exists [], [], (showing ++ [SetEscapeKeyAction ""; Update false])%list.
    vm_compute. reflexivity. }
  assert (Ho : openAtRest uncancellable)
    by (vm_compute; repeat split; reflexivity).
  destruct (disabled_cancel_overwrites_currentAction uncancellable He)
    as (_ & _ & Hc & Hrun).
  split; [vm_compute; reflexivity|]. split; [exact Hc|].
  destruct (Hrun Hr Ho) as [Hstep Hrest].
  destruct (Hrest false 0%Z false) as (s' & Hs' & Hl).
  exists s'. split; [|exact Hl].
  rewrite run_cons, Hstep. exact Hs'.
Defined.

(** * Further properties of the code *)

(** ** Scroll dividers *)

Lemma Math_round_integer (x : Q) (z : Z) :
  (x == inject_Z z)%Q -> Math_round x = z.
Proof.
  intros Hx. unfold Math_round. rewrite Hx.
  unfold Qfloor, Qplus, inject_Z. cbn [Qnum Qden].
  change (Z.pos (1 * 2)) with 2%Z. Z.div_mod_to_equations. lia.
Qed.

Lemma inject_Z_sub (a b : Z) :
  (inject_Z (a - b) == inject_Z a - inject_Z b)%Q.
Proof.
  unfold Z.sub, Qminus. by rewrite inject_Z_plus, inject_Z_opp.
Qed.

Lemma Math_round_bounds (x : Q) (lo hi : Z) :
  (lo <= Math_round x <= hi)%Z
  <-> (inject_Z lo - (1 # 2) <= x /\ x < inject_Z hi + (1 # 2))%Q.
Proof.
  pose proof (Math_round_nearest x) as [Hle Hlt].
  split.
  - intros [Hlo Hhi]. rewrite Zle_Qle in Hlo, Hhi. split; lra.
  - intros [Hlo Hhi]. split.
    + apply Z.lt_succ_r. rewrite Zlt_Qlt, <- Z.add_1_r, inject_Z_plus.
      change (inject_Z 1) with 1%Q. lra.
    + apply Z.lt_succ_r. rewrite Zlt_Qlt, <- Z.add_1_r, inject_Z_plus.
      change (inject_Z 1) with 1%Q. lra.
Qed.

(** Once rendered, the content counts as scrolled to its bottom exactly
    when [scrollTop] lies within two and a half pixels of the largest
    scroll position, [scrollHeight - clientHeight]: above it less 5/2, and
    at most it plus 5/2.  For a whole number of pixels this is a distance
    of at most 2. *)
Theorem scroll_bottom_tolerance (s : State) (c : Content) :
  hasUpdated (lit s) = true ->
  contentElement s = Some c ->
  (isAtScrollBottom (getContentScrollInfo s) = true
   <-> (inject_Z (scrollHeight c - clientHeight c) - (5 # 2) < scrollTop c
        /\ scrollTop c
           <= inject_Z (scrollHeight c - clientHeight c) + (5 # 2))%Q)
  /\ (forall top : Z,
        (scrollTop c == inject_Z top)%Q ->
        isAtScrollBottom (getContentScrollInfo s) = true
        <-> (Z.abs (scrollHeight c - top - clientHeight c) <= 2)%Z).
Proof.
  intros Hu Hc. unfold getContentScrollInfo. rewrite Hu, Hc.
  cbn [isAtScrollBottom]. rewrite Z.leb_le. split.
  - rewrite inject_Z_sub.
    set (x := (inject_Z (scrollHeight c) - scrollTop c)%Q).
    transitivity (clientHeight c - 2 <= Math_round x <= clientHeight c + 2)%Z;
      [lia|].
    rewrite Math_round_bounds, inject_Z_sub, inject_Z_plus. subst x.
    change (inject_Z 2) with 2%Q. split; intros [? ?]; split; lra.
  - intros top Ht.
    rewrite (Math_round_integer _ (scrollHeight c - top));
      [apply Z.leb_le|].
    rewrite Ht, inject_Z_sub. reflexivity.
Qed.

Lemma scroll_bottom_tolerance_witness :
  isAtScrollBottom (getContentScrollInfo (tallDialog (597 # 2))) = true
  /\ isAtScrollBottom (getContentScrollInfo (tallDialog (595 # 2))) = false.
Proof.
  split.
  - apply (proj1 (scroll_bottom_tolerance (tallDialog (597 # 2))
                    (tallContent (597 # 2)) eq_refl eq_refl)).
    split; reflexivity || (vm_compute; discriminate).
  - apply not_true_is_false. intros H.
    apply (proj1 (scroll_bottom_tolerance (tallDialog (595 # 2))
                    (tallContent (595 # 2)) eq_refl eq_refl)) in H.
    destruct H as [H _]. vm_compute in H. discriminate H.
Defined.

(** The classes of the rendered dialog element: [dialog] comes first and
    no class comes twice; [scrollable] and the two divider classes say what
    [getContentScrollInfo] finds, [footerHidden] what the property is; and
    a render before the first update has finished shows no divider. *)
Theorem render_classes (s : State) :
  head (render s) = Some "dialog"
  /\ NoDup (render s)
  /\ ("scrollable" ∈ render s
      <-> isScrollable (getContentScrollInfo s) = true)
  /\ ("scroll-divider-header" ∈ render s
      <-> isAtScrollTop (getContentScrollInfo s) = false)
  /\ ("scroll-divider-footer" ∈ render s
      <-> isAtScrollBottom (getContentScrollInfo s) = false)
  /\ ("footerHidden" ∈ render s <-> footerHidden (props s) = true)
  /\ (hasUpdated (lit s) = false ->
      render s
      = "dialog" :: if footerHidden (props s) then ["footerHidden"] else []).
Proof.
  unfold render. split; [done|].
  split; [|split; [|split; [|split; [|split]]]].
  6: { intros Hu. unfold getContentScrollInfo. by rewrite Hu. }
  all: destruct (getContentScrollInfo s) as [[] [] []];
    destruct (footerHidden (props s));
    cbn [isScrollable isAtScrollTop isAtScrollBottom negb app].
  all: try compute_done.
  all: try (split; [intros _; reflexivity|intros _; compute_done]).
  all: split; [intros H; exfalso; revert H; compute_done|discriminate].
Qed.

(** A scroll of the content asks for an update.  On an element at rest
    that update renders the dividers for the new scroll position and does
    nothing else: no transition sequence starts, nothing reaches the
    outside, no property changes. *)
Theorem content_scroll_rerenders (s : State) (c : Content) :
  reachable s ->
  quiescent s ->
  isUpdatePending (lit (handleContentScroll c s)) = true
  /\ forall mediaMatches,
       let s' := performUpdate mediaMatches (handleContentScroll c s) in
       quiescent s'
       /\ getContentScrollInfo s' = scrollInfoOf c
       /\ log (rt s') = log (rt s)
       /\ props s' = props s.
Proof.
  intros Hr Hq.
  destruct (quiescent_applied s Hr Hq) as (Hch & Hu & [sh Hsh] & Hso).
  destruct Hq as [Ht Hp]. split; [done|].
  intros mediaMatches. cbv zeta.
  destruct (performUpdate_flat mediaMatches (handleContentScroll c s))
    as (sf & fq & a & ->).
  unfold quiescent, getContentScrollInfo, contentElement, openChanged,
    spawned, handleContentScroll, setContent, modalShadow, rendered. st.
  rewrite Hch, Hsh, Ht, has_empty.
  cbn [andb fmap option_fmap option_map default app content].
  by rewrite app_nil_r.
Qed.

Lemma content_scroll_rerenders_witness :
  getContentScrollInfo
    (performUpdate false (handleContentScroll (tallContent 100) shownDialog))
  = {| isScrollable := true; isAtScrollTop := false;
       isAtScrollBottom := false |}.
Proof.
  assert (Hq : quiescent shownDialog) by (split; vm_compute; reflexivity).
  destruct (proj2 (content_scroll_rerenders shownDialog (tallContent 100)
                     shownDialog_reachable Hq) false) as (_ & Hi & _).
  rewrite Hi. vm_compute. reflexivity.
Defined.

(** The observer of the content's size asks for an update only while the
    dialog shows open.  At rest: when the dialog is closed, a change of
    size changes nothing but the metrics; when it is open, the update that
    is asked for renders the new metrics and does nothing else. *)
Theorem content_resize_at_rest (s : State) (c : Content) :
  reachable s ->
  quiescent s ->
  (open (props s) = false -> handleContentResize c s = setContent c s)
  /\ (open (props s) = true ->
      handleContentResize c s = requestUpdate0 (setContent c s)
      /\ forall mediaMatches,
           let s' := performUpdate mediaMatches (handleContentResize c s) in
           quiescent s'
           /\ contentElement s' = Some c
           /\ log (rt s') = log (rt s)
           /\ props s' = props s).
Proof.
  intros Hr Hq.
  destruct (quiescent_applied s Hr Hq) as (Hch & Hu & [sh Hsh] & Hso).
  destruct Hq as [Ht Hp].
  assert (He : handleContentResize c s
               = if open (props s) then requestUpdate0 (setContent c s)
                 else setContent c s).
  { unfold handleContentResize, setContent. st. by rewrite Hso. }
  rewrite He. split; intros Ho; rewrite Ho; [reflexivity|].
  split; [reflexivity|].
  intros mediaMatches. cbv zeta.
  destruct (performUpdate_flat mediaMatches (requestUpdate0 (setContent c s)))
    as (sf & fq & a & ->).
  unfold quiescent, contentElement, openChanged, spawned, setContent,
    modalShadow, rendered. st.
  rewrite Hch, Hsh, Ht, has_empty.
  cbn [andb fmap option_fmap option_map default app content].
  by rewrite app_nil_r.
Qed.

Lemma content_resize_at_rest_witness :
  handleContentResize (tallContent 0) shownDialog
  = requestUpdate0 (setContent (tallContent 0) shownDialog)
  /\ handleContentResize (tallContent 0) closedDialog
     = setContent (tallContent 0) closedDialog.
Proof.
  assert (Hq : quiescent shownDialog) by (split; vm_compute; reflexivity).
  assert (Hr' : reachable closedDialog).
  { exists [], [], [Update false; Resume 0 0]. vm_compute. reflexivity. }
  assert (Hq' : quiescent closedDialog) by (split; vm_compute; reflexivity).
  split.
  - apply (proj2 (content_resize_at_rest shownDialog (tallContent 0)
                    shownDialog_reachable Hq)).
    vm_compute. reflexivity.
  - apply (proj1 (content_resize_at_rest closedDialog (tallContent 0)
                    Hr' Hq')).
    vm_compute. reflexivity.
Defined.

(** ** Clicks that close *)

(** A click, while the dialog is open, on an element that has the action
    attribute: with a value that is not empty the click is [close] with
    that value, and on a dialog at rest the transition sequence follows as
    far as it gets, to the [closing] event with that value; with the empty
    value nothing is closed, wherever the click lands, and only the pending
    action is set to the empty string. *)
Theorem click_on_action_element (event : ClickEvent) (s : State)
    (a : string) :
  open (props s) = true ->
  attrs (target event) !! actionAttribute (props s) = Some a ->
  (a <> "" -> handleDialogClick event s = close a s)
  /\ (a = "" -> handleDialogClick event s = set_currentAction (Some "") s)
  /\ (a <> "" -> reachable s -> openAtRest s ->
      forall mediaMatches duration mediaMatches',
      exists s',
        run [Click event; Update mediaMatches; Resume 0 duration;
             Update mediaMatches'] s = Some s'
        /\ log (rt s')
           = (log (rt s) ++ [DispatchAction "closing" (Some a)])%list
        /\ quiescent s').
Proof.
  intros Ho Ha.
  assert (Hc : a <> "" -> handleDialogClick event s = close a s).
  { intros Hne. unfold handleDialogClick. rewrite Ho, Ha. cbn [negb].
    destruct (String.eqb_spec a ""); [done|]. cbn [negb].
    apply close_set_currentAction. }
  split; [exact Hc|]. split.
  - intros ->. unfold handleDialogClick. by rewrite Ho, Ha.
  - intros Hne Hr Hrest mediaMatches duration mediaMatches'.
    destruct (openAtRest_native s Hr Hrest) as [_ Hx].
    pose proof (closingPhase_start s (Some a) Hr Hrest) as H0.
    change (write_open false (set_currentAction (Some a) s)) with (close a s)
      in H0.
    destruct (closingPhase_complete _ _ _ mediaMatches duration mediaMatches'
                H0) as (s' & Hrun & H3).
    exists s'. rewrite run_cons. cbn [step]. rewrite Hx, (Hc Hne).
    split; [exact Hrun|].
    by destruct H3 as (_ & _ & _ & _ & _ & ? & _ & _ & ? & ?).
Qed.

Lemma click_on_action_element_witness :
  handleDialogClick {| target := buyButton; pathIncludesContainer := true |}
    shownDialog
  = close "buy" shownDialog
  /\ handleDialogClick
       {| target := blankAction; pathIncludesContainer := false |} shownDialog
     = set_currentAction (Some "") shownDialog.
Proof.
  split.
  - apply (proj1 (click_on_action_element
                    {| target := buyButton; pathIncludesContainer := true |}
                    shownDialog "buy" eq_refl eq_refl)).
    discriminate.
  - apply (proj1 (proj2 (click_on_action_element
                    {| target := blankAction; pathIncludesContainer := false |}
                    shownDialog "" eq_refl eq_refl))).
    reflexivity.
Defined.

(** A click on the scrim does nothing.  While the dialog is open, a click
    on a target without the action attribute resolves to the empty action
    wherever it lands, inside the dialog or on the scrim around it, and
    whatever [scrimClickAction] is: the query for the container has found
    no element, so the scrim is not told apart.  [close()] is not called:
    [open] stays true, no update is asked for and nothing is dispatched. *)
Theorem scrim_click_is_inert (event : ClickEvent) (s : State) :
  open (props s) = true ->
  attrs (target event) !! actionAttribute (props s) = None ->
  handleDialogClick event s = set_currentAction (Some "") s
  /\ open (props (handleDialogClick event s)) = true
  /\ lit (handleDialogClick event s) = lit s
  /\ rt (handleDialogClick event s) = rt s.
Proof.
  intros Ho Ha. unfold handleDialogClick.
  rewrite Ho, Ha, containerElement_null.
  rewrite bool_decide_false by (by intros [? ?]). cbn [negb andb].
  rewrite String.eqb_refl. cbn [negb]. st. by rewrite Ho.
Qed.

Lemma scrim_click_is_inert_witness :
  scrimClickAction (props shownDialog) = "close"
  /\ handleDialogClick
       {| target := plainButton; pathIncludesContainer := false |} shownDialog
     = set_currentAction (Some "") shownDialog.
Proof.
  split; [reflexivity|].
  apply (scrim_click_is_inert
           {| target := plainButton; pathIncludesContainer := false |}
           shownDialog eq_refl eq_refl).
Defined.

(** ** Focus and blur *)

Lemma focusCandidates_eq s :
  focusCandidates s
  = filter (fun e => matches "autofocus" e = true) (slottedTrees s).
Proof.
  unfold focusCandidates, autofocusable, slottedTrees.
  rewrite <- flat_map_app.
  induction (footerSlot (dom s) ++ contentSlot (dom s))%list as [|el l IH];
    [done|].
  cbn [flat_map]. by rewrite filter_app, IH.
Qed.

(** The element that [getFocusElement] finds is marked [autofocus] and is
    a slotted element or a descendant of one; [focus()] and [blur()] both
    address it.  None is found exactly when no such element is marked, and
    then [focus()] and [blur()] do nothing. *)
Theorem focus_and_blur_target (s : State) :
  (forall el,
     getFocusElement s = Some el ->
     matches "autofocus" el = true
     /\ el ∈ slottedTrees s
     /\ focus s = emit (Focus el) s
     /\ blur s = emit (Blur el) s)
  /\ (getFocusElement s = None
      <-> forall el, el ∈ slottedTrees s -> matches "autofocus" el = false)
  /\ (getFocusElement s = None -> focus s = s /\ blur s = s).
Proof.
  split; [|split].
  - intros el Hel. pose proof Hel as Hin.
    rewrite getFocusElement_eq, focusCandidates_eq in Hin.
    apply head_Some_elem_of, list_elem_of_filter in Hin as [Hm Hin].
    unfold focus, blur. by rewrite Hel.
  - rewrite getFocusElement_eq, focusCandidates_eq, head_None. split.
    + intros Hnil el Hel. destruct (matches "autofocus" el) eqn:Hm; [|done].
      assert (Hin : el ∈ filter (fun e => matches "autofocus" e = true)
                         (slottedTrees s))
        by (by apply list_elem_of_filter).
      rewrite Hnil in Hin. by apply elem_of_nil in Hin.
    + intros Hall.
      destruct (filter _ (slottedTrees s)) as [|el l] eqn:E; [done|].
      assert (Hin : el ∈ filter (fun e => matches "autofocus" e = true)
                         (slottedTrees s))
        by (rewrite E; apply list_elem_of_here).
      apply list_elem_of_filter in Hin as [Hm Hin].
      rewrite (Hall el Hin) in Hm. discriminate.
  - intros Hn. unfold focus, blur. by rewrite Hn.
Qed.

Lemma focus_and_blur_target_witness :
  blur formPage = emit (Blur markedField) formPage
  /\ blur (constructed [plainButton] []) = constructed [plainButton] [].
Proof.
  split.
  - apply (proj1 (focus_and_blur_target formPage) markedField).
    vm_compute. reflexivity.
  - apply (proj2 (proj2 (focus_and_blur_target
                           (constructed [plainButton] [])))).
    vm_compute. reflexivity.
Defined.

(** ** [show()] and [close()] *)

(** Neither call does anything at once but to the properties: [open] is
    set, for [close] the action is recorded, and an update is asked for if
    [open] changed; the shadow tree, the transition sequences and the
    trace are as before.  A second [show()] changes nothing, and of two
    calls of [close] before the update the later one counts. *)
Theorem show_and_close_are_deferred (s : State) (a b : string) :
  (open (props (show s)) = true
   /\ priv (show s) = priv s /\ dom (show s) = dom s /\ rt (show s) = rt s)
  /\ (open (props (close a s)) = false
      /\ currentAction (priv (close a s)) = Some a
      /\ dom (close a s) = dom s /\ rt (close a s) = rt s)
  /\ show (show s) = show s
  /\ close a (close b s) = close a s
  /\ isUpdatePending (lit (show s))
     = isUpdatePending (lit s) || negb (open (props s))
  /\ isUpdatePending (lit (close a s))
     = isUpdatePending (lit s) || open (props s).
Proof.
  destruct s as [[[] ? ? ? ? ? ? ?] [] [? [] ?] [] []];
    repeat split; reflexivity.
Qed.

(** ** The native dialog *)




(** ** The lifecycle events of a run *)

Lemma count_app {A} (P : A -> bool) l k :
  count P (l ++ k) = count P l + count P k.
Proof. unfold count. by rewrite filter_app, length_app. Qed.

Lemma count_cons {A} (P : A -> bool) x l :
  count P (x :: l) = (if P x then 1 else 0) + count P l.
Proof.
  unfold count. rewrite filter_cons.
  case_decide as Hx; [by rewrite Hx|]. by destruct (P x).
Qed.

Lemma count_nil {A} (P : A -> bool) : count P [] = 0.
Proof. done. Qed.

Lemma count_none {A} (P : A -> bool) l :
  Forall (fun x => P x = false) l -> count P l = 0.
Proof.
  induction 1 as [|x l Hx _ IH]; [done|]. by rewrite count_cons, Hx, IH.
Qed.

Lemma count_ext {A} (P Q : A -> bool) l :
  Forall (fun x => P x = Q x) l -> count P l = count Q l.
Proof.
  induction 1 as [|x l Hx _ IH]; [done|]. by rewrite !count_cons, Hx, IH.
Qed.

Lemma wellFormed_focusLog s :
  Forall (fun e => wellFormed e = true) (focusLog s).
Proof.
  unfold focusLog. destruct (getFocusElement s); by repeat constructor.
Qed.

Lemma wellFormedLog_step a s s' :
  wellFormedLog s -> step a s = Some s' -> wellFormedLog s'.
Proof.
  unfold wellFormedLog. intros H Hs.
  step_cases Hs; notes; try done.
  all: unfold actionDetail; repeat case_match.
  all: rewrite ?Forall_app; repeat split; try done.
  all: try apply wellFormed_focusLog.
  all: st; try congruence.
  all: by repeat constructor.
Qed.

Lemma wellFormedLog_reachable s : reachable s -> wellFormedLog s.
Proof.
  apply (reachable_preserves wellFormedLog wellFormedLog_step).
  intros footer body. constructor.
Qed.

(** A lifecycle event that is well formed and not of the second half of a
    transition sequence is one that begins a transition. *)
Lemma isPre_isDispatch e :
  wellFormed e = true -> isLate e = false -> isPre e = isDispatch e.
Proof.
  destruct e as [type action| | | | | |]; try done. cbn.
  destruct (String.eqb type "opening"); [done|].
  destruct (String.eqb type "opened"); [done|].
  destruct (String.eqb type "closing"); [done|].
  by destruct (String.eqb type "closed").
Qed.

(** The events that begin a transition are never answered.  In every
    state that the element reaches, no [opened] and no [closed] event has
    been dispatched, however many [opening] and [closing] events were, and
    no suspended transition sequence has dispatched its first event and is
    to dispatch its second: every lifecycle event dispatched so far is an
    [opening] or a [closing] event. *)
Theorem lifecycle_events_unanswered (s : State) :
  reachable s ->
  count isPost (log (rt s)) = 0
  /\ count started (tasks (rt s)) = 0
  /\ count isPre (log (rt s)) = length (events s).
Proof.
  intros Hr.
  destruct (invariant_reachable s Hr) as (_ & _ & _ & _ & _ & Ht & _ & Hl).
  pose proof (wellFormedLog_reachable s Hr) as Hw.
  split; [|split].
  - apply count_none. eapply Forall_impl; [exact Hl|].
    by intros [type action| | | | | |] He.
  - apply count_none. eapply Forall_impl; [exact Ht|].
    by intros [| |].
  - unfold events. change (length (filter _ (log (rt s))))
      with (count isDispatch (log (rt s))).
    apply count_ext. unfold wellFormedLog in Hw.
    rewrite Forall_forall in *. intros e He.
    apply isPre_isDispatch; auto.
Qed.

Lemma lifecycle_events_unanswered_witness :
  count isPre (log (rt closedByCall)) = 2
  /\ count isPost (log (rt closedByCall)) = 0.
Proof.
  assert (Hr : reachable closedByCall).
  { exists [], [],
      (showing ++ [Close "buy"; Update false; Resume 0 0; Update false])%list.
    vm_compute. reflexivity. }
  split; [vm_compute; reflexivity|].
  apply (proj1 (lifecycle_events_unanswered closedByCall Hr)).
Defined.

(** Every lifecycle event that the element ever dispatches is of one of
    the four types, and an [opening] or [opened] event carries the action
    ['none']. *)
Theorem lifecycle_events_well_formed (s : State) (type : string)
    (action : option string) :
  reachable s ->
  DispatchAction type action ∈ log (rt s) ->
  ((type = "opening" \/ type = "opened") /\ action = Some "none")
  \/ type = "closing" \/ type = "closed".
Proof.
  intros Hr Hin.
  assert (Hw : wellFormedLog s).
  { revert Hr. apply (reachable_preserves wellFormedLog wellFormedLog_step).
    intros footer body. constructor. }
  unfold wellFormedLog in Hw. rewrite Forall_forall in Hw.
  specialize (Hw _ Hin). cbn [wellFormed] in Hw.
  destruct (String.eqb_spec type "opening") as [->|_]; cbn [orb] in Hw.
  { left. split; [by left|]. by apply bool_decide_eq_true in Hw. }
  destruct (String.eqb_spec type "opened") as [->|_].
  { left. split; [by right|]. by apply bool_decide_eq_true in Hw. }
  right.
  destruct (String.eqb_spec type "closing") as [->|_]; [by left|].
  destruct (String.eqb_spec type "closed") as [->|_]; [by right|].
  discriminate Hw.
Qed.

Lemma lifecycle_events_well_formed_witness :
  DispatchAction "opening" (Some "none") ∈ log (rt shownDialog)
  /\ ((("opening" = "opening" \/ "opening" = "opened")
       /\ Some "none" = Some "none")
      \/ "opening" = "closing" \/ "opening" = "closed").
Proof.
  assert (Hin : DispatchAction "opening" (Some "none")
                ∈ log (rt shownDialog)).
  { vm_compute. apply list_elem_of_further. apply list_elem_of_here. }
  split; [exact Hin|].
  exact (lifecycle_events_well_formed shownDialog "opening" (Some "none")
           shownDialog_reachable Hin).
Defined.

(** ** The attributes of the host *)

Lemma elem_of_reflected_ne ch key v attribute a x :
  x <> attribute -> x ∈ reflected ch key v attribute a <-> x ∈ a.
Proof.
  intros Hne. unfold reflected. destruct (negb (has key ch)); [done|].
  destruct v.
  - rewrite elem_of_union, elem_of_singleton. tauto.
  - rewrite elem_of_difference, elem_of_singleton. tauto.
Qed.

Lemma elem_of_reflected_eq ch key v attribute a :
  attribute ∈ reflected ch key v attribute a
  <-> if has key ch then v = true else attribute ∈ a.
Proof.
  unfold reflected. destruct (has key ch); cbn [negb]; [|done].
  destruct v.
  - rewrite elem_of_union, elem_of_singleton. tauto.
  - rewrite elem_of_difference, elem_of_singleton.
    split; [by intros [_ []]|discriminate].
Qed.

Lemma updated_attributes ch s :
  attributes (dom (updated ch s))
  = reflected ch "showingOpen" (showingOpen (priv s)) "showing-open"
      (reflected ch "showingFullscreen" (showingFullscreen (priv s))
         "showing-fullscreen"
         (reflected ch "closing" (truthy (closing (priv s))) "closing"
            (reflected ch "opening" (opening (priv s)) "opening"
               (attributes (dom s)))))
  /\ priv (updated ch s) = priv s
  /\ props (updated ch s) = props s
  /\ lit (updated ch s) = lit s.
Proof.
  unfold updated, showModal, resetScrollTop. notes.
  by repeat case_match.
Qed.

(** What a step that is no update does to the reflected states: each
    is written through its accessor, which records the change. *)
Ltac unchanged_or_recorded :=
  repeat first [ rewrite has_noted_if_ne by done | rewrite has_noted_if_eq ];
  repeat match goal with
         | Hx : _ || _ = false |- _ => apply orb_false_elim in Hx as [? ?]
         | Hx : negb (bool_decide _) = false |- _ =>
             apply negb_false_iff, bool_decide_eq_true in Hx
         end.

Lemma mirrored_willUpdate m s : mirrored s -> mirrored (willUpdate m s).
Proof.
  unfold willUpdate. intros H. repeat case_match; notes.
  all: unfold mirrored, reflects in *; st.
  all: repeat first [ rewrite has_noted_if_ne by done
                    | rewrite has_noted_if_eq ].
  all: destruct H as (Ho & Hg & Hf & Hw).
  all: (split; [|split; [|split]]); intros Hc; unchanged_or_recorded.
  all: repeat match goal with
              | Hv : _ = _ (priv _) |- _ => rewrite <- ?Hv in *; clear Hv
              end.
  all: auto.
Qed.

Lemma mirrored_performUpdate m s : mirrored s -> mirrored (performUpdate m s).
Proof.
  intros H. apply (mirrored_willUpdate m) in H.
  unfold performUpdate. set (s1 := willUpdate m s) in *.
  set (s2 := set_hasUpdated _ _).
  destruct (updated_attributes (changed (lit s1)) s2) as (Ha & Hp & _ & Hl).
  assert (Hd : attributes (dom s2) = attributes (dom s1)).
  { subst s2. unfold commit. by destruct (shadow (dom s1)). }
  assert (Hq : priv s2 = priv s1).
  { subst s2. unfold commit. by destruct (shadow (dom s1)). }
  rewrite Hd, Hq in Ha. rewrite Hq in Hp.
  destruct H as (Ho & Hg & Hf & Hw).
  unfold mirrored, reflects. rewrite Ha, Hp.
  split; [|split; [|split]]; intros _.
  - rewrite !elem_of_reflected_ne by done. rewrite elem_of_reflected_eq.
    destruct (has "opening" (changed (lit s1))) eqn:E;
      [reflexivity|exact (Ho E)].
  - rewrite !elem_of_reflected_ne by done. rewrite elem_of_reflected_eq.
    destruct (has "closing" (changed (lit s1))) eqn:E; [reflexivity|].
    rewrite elem_of_reflected_ne by done. exact (Hg E).
  - rewrite !elem_of_reflected_ne by done. rewrite elem_of_reflected_eq.
    destruct (has "showingFullscreen" (changed (lit s1))) eqn:E;
      [reflexivity|].
    rewrite !elem_of_reflected_ne by done. exact (Hf E).
  - rewrite elem_of_reflected_eq.
    destruct (has "showingOpen" (changed (lit s1))) eqn:E; [reflexivity|].
    rewrite !elem_of_reflected_ne by done. exact (Hw E).
Qed.

Lemma mirrored_step a s s' :
  mirrored s -> step a s = Some s' -> mirrored s'.
Proof.
  intros H Hs. destruct a.
  all: try match type of Hs with
           | step (Update _) _ = _ =>
               cbn [step] in Hs; destruct (isUpdatePending (lit s)); [|done];
               injection Hs as <-; by apply mirrored_performUpdate
           end.
  all: unfold step in Hs; repeat step_flat Hs; simplify_eq.
  all: unfold mirrored, reflects in *.
  all: notes; try done.
  all: repeat first [ rewrite has_noted_if_ne by done
                    | rewrite has_noted_if_eq ].
  all: destruct H as (Ho & Hg & Hf & Hw).
  all: (split; [|split; [|split]]); intros Hc; unchanged_or_recorded.
  all: repeat match goal with
              | Hv : _ = _ (priv _) |- _ => rewrite <- ?Hv in *; clear Hv
              end.
  all: auto.
Qed.

(** Whenever no update is pending, the attributes [opening], [closing],
    [showing-fullscreen] and [showing-open] of the host are present
    exactly when the state of their name holds. *)
Theorem host_attributes_mirror_state (s : State) :
  reachable s ->
  isUpdatePending (lit s) = false ->
  ("opening" ∈ attributes (dom s) <-> opening (priv s) = true)
  /\ ("closing" ∈ attributes (dom s) <-> truthy (closing (priv s)) = true)
  /\ ("showing-fullscreen" ∈ attributes (dom s)
      <-> showingFullscreen (priv s) = true)
  /\ ("showing-open" ∈ attributes (dom s) <-> showingOpen (priv s) = true).
Proof.
  intros Hr Hp.
  destruct (invariant_reachable s Hr) as (_ & Hrec & _).
  assert (Hm : mirrored s).
  { revert Hr. apply (reachable_preserves mirrored mirrored_step).
    intros footer body. unfold mirrored, reflects.
    (split; [|split; [|split]]); intros Hc; vm_compute in Hc;
      discriminate Hc. }
  destruct Hm as (Ho & Hg & Hf & Hw). unfold reflects in *.
  rewrite (Hrec Hp), has_empty in *. by auto.
Qed.

Lemma host_attributes_mirror_state_witness :
  "showing-open" ∈ attributes (dom shownDialog)
  /\ "opening" ∈ attributes (dom shownDialog)
  /\ "closing" ∉ attributes (dom shownDialog).
Proof.
  assert (Hp : isUpdatePending (lit shownDialog) = false)
    by (vm_compute; reflexivity).
  destruct (host_attributes_mirror_state shownDialog shownDialog_reachable Hp)
    as (Ho & Hc & _ & Hw).
  split; [|split].
  - apply Hw. vm_compute. reflexivity.
  - apply Ho. vm_compute. reflexivity.
  - intros Hin. apply Hc in Hin. vm_compute in Hin. discriminate Hin.
Defined.

(** ** Fullscreen *)

Lemma willUpdate_fullscreen m s :
  props (willUpdate m s) = props s
  /\ if has "fullscreen" (changed (lit s))
        || has "fullscreenBreakpoint" (changed (lit s))
     then
       fullscreenQuery (priv (willUpdate m s))
       = (if fullscreen (props s) then Some (fullscreenBreakpoint (props s))
          else None)
       /\ showingFullscreen (priv (willUpdate m s)) = fullscreen (props s) && m
     else
       fullscreenQuery (priv (willUpdate m s)) = fullscreenQuery (priv s)
       /\ showingFullscreen (priv (willUpdate m s))
          = showingFullscreen (priv s).
Proof.
  unfold willUpdate. cbv zeta.
  set (s1 := if has "open" (changed (lit s)) then _ else s).
  assert (Hs1 : props s1 = props s
                /\ fullscreenQuery (priv s1) = fullscreenQuery (priv s)
                /\ showingFullscreen (priv s1) = showingFullscreen (priv s)
                /\ has "fullscreen" (changed (lit s1))
                   = has "fullscreen" (changed (lit s))
                /\ has "fullscreenBreakpoint" (changed (lit s1))
                   = has "fullscreenBreakpoint" (changed (lit s))).
  { subst s1. case_match; [|done]. by notes. }
  destruct Hs1 as (Hp & Hq & Hsf & Hf & Hb). clearbody s1.
  rewrite Hf, Hb. case_match.
  - rewrite updateFullscreen_eq. notes. rewrite Hp. by destruct (fullscreen _).
  - by rewrite Hp, Hq, Hsf.
Qed.

Lemma fullscreenApplied_performUpdate m s :
  fullscreenApplied s -> fullscreenApplied (performUpdate m s).
Proof.
  unfold fullscreenApplied, performUpdate. intros H _ _.
  set (s2 := set_hasUpdated _ _).
  destruct (updated_attributes (changed (lit (willUpdate m s))) s2)
    as (_ & -> & -> & _).
  subst s2. unfold commit.
  destruct (shadow (dom (willUpdate m s))); st.
  all: destruct (willUpdate_fullscreen m s) as [-> Hw].
  all: destruct (has "fullscreen" (changed (lit s))
                 || has "fullscreenBreakpoint" (changed (lit s))) eqn:E;
    destruct Hw as [-> ->];
    [split; [done|by intros ->]|apply orb_false_elim in E as [? ?]; by apply H].
Qed.

Lemma fullscreenApplied_step a s s' :
  fullscreenApplied s -> step a s = Some s' -> fullscreenApplied s'.
Proof.
  intros H Hs. destruct a.
  all: try match type of Hs with
           | step (Update _) _ = _ =>
               cbn [step] in Hs; destruct (isUpdatePending (lit s)); [|done];
               injection Hs as <-; by apply fullscreenApplied_performUpdate
           end.
  all: unfold step in Hs; repeat step_flat Hs; simplify_eq.
  all: unfold fullscreenApplied in *.
  all: notes; try done.
  all: repeat first [ rewrite has_noted_if_ne by done
                    | rewrite has_noted_if_eq ].
  all: intros Hf Hb; unchanged_or_recorded.
  all: repeat match goal with
              | Hv : _ = _ (props _) |- _ => rewrite <- ?Hv in *; clear Hv
              end.
  all: try (by apply H).
  destruct (H Hf Hb) as [Hq _]. split; [done|]. intros Hfs.
  rewrite Hfs in Hq. congruence.
Qed.

(** Whenever no update is pending: the element listens to a media query
    exactly while [fullscreen] is set, the query is the one of the current
    [fullscreenBreakpoint], and the dialog shows fullscreen only if
    [fullscreen] is set. *)
Theorem fullscreen_query_follows_properties (s : State) :
  reachable s ->
  isUpdatePending (lit s) = false ->
  fullscreenQuery (priv s)
  = (if fullscreen (props s) then Some (fullscreenBreakpoint (props s))
     else None)
  /\ (showingFullscreen (priv s) = true -> fullscreen (props s) = true).
Proof.
  intros Hr Hp.
  destruct (invariant_reachable s Hr) as (_ & Hrec & _).
  assert (Hf : fullscreenApplied s).
  { revert Hr.
    apply (reachable_preserves fullscreenApplied fullscreenApplied_step).
    intros footer body Hc. vm_compute in Hc. discriminate Hc. }
  unfold fullscreenApplied in Hf. rewrite (Hrec Hp), has_empty in Hf.
  destruct (Hf eq_refl eq_refl) as [Hq Hs]. split; [done|].
  intros Hsf. destruct (fullscreen (props s)); [done|].
  rewrite Hs in Hsf by done. discriminate.
Qed.

Lemma fullscreen_query_follows_properties_witness :
  fullscreenQuery (priv fullscreenDialog)
  = Some "(max-width: 600px), (max-height: 400px)"
  /\ showingFullscreen (priv fullscreenDialog) = true.
Proof.
  assert (Hr : reachable fullscreenDialog).
  { exists [], [], (showing ++ [SetFullscreen true; Update true])%list.
    vm_compute. reflexivity. }
  assert (Hp : isUpdatePending (lit fullscreenDialog) = false)
    by (vm_compute; reflexivity).
  destruct (fullscreen_query_follows_properties fullscreenDialog Hr Hp)
    as [Hq _].
  split; [|vm_compute; reflexivity].
  rewrite Hq. vm_compute. reflexivity.
Defined.

(** ** An open transition, from the call to where it ends *)

Lemma getFocusElement_performUpdate m s :
  getFocusElement (performUpdate m s) = getFocusElement s.
Proof.
  destruct (performUpdate_flat m s) as (sf & fq & a & ->).
  unfold getFocusElement. by st.
Qed.

Lemma openingPhase_update l0 g k s m :
  openingPhase l0 g k s ->
  isUpdatePending (lit s) = true ->
  openingPhase l0 g (advance k (Update m)) (performUpdate m s).
Proof.
  intros (Ho & Hq & Hg & Hk) Hp.
  pose proof (getFocusElement_performUpdate m s) as Hg'.
  destruct (performUpdate_flat m s) as (sf & fq & a & Hflat).
  unfold openingPhase. rewrite Hg', Hg. rewrite Hflat.
  unfold openChanged, dialogElement_open, spawned, modalShadow, rendered in *.
  st. rewrite Ho, Hq.
  split; [done|]. split; [done|]. split; [done|].
  destruct k as [|[|[|k]]]; cbn [advance].
  - destruct Hk as (Hch & _ & Hso & [sh Hsh] & Hl & Ht).
    destruct (has_lookup_Some _ _ _ Hch) as [-> ->].
    rewrite Hsh, Hl, Ht, Hso. cbn [andb]. by rewrite bool_decide_false.
  - destruct Hk as (_ & Hp' & _). congruence.
  - destruct Hk as (Hc & _ & Hso & Hd & Hop & Hl & Ht).
    rewrite Hc, Hl, Ht, Hso, Hop. cbn [andb]. rewrite !app_nil_r.
    by destruct (shadow (dom s)).
  - destruct Hk as (_ & Hp' & _). congruence.
Qed.

Lemma openingPhase_resume l0 g k s i duration s' :
  openingPhase l0 g k s ->
  resume i duration s = Some s' ->
  openingPhase l0 g (advance k (Resume i duration)) s'.
Proof.
  intros (Ho & Hq & Hg & Hk) Hs. unfold resume in Hs.
  destruct k as [|[|[|k]]]; cbn [advance].
  - destruct Hk as (_ & _ & _ & _ & _ & Ht). by rewrite Ht in Hs.
  - destruct Hk as (Hch & Hp & Hso & Hd & Hop & Hl & Ht). rewrite Ht in Hs.
    destruct i as [|i]; [|done]. cbn [lookup list_lookup] in Hs.
    rewrite performTransition_1_flat in Hs. injection Hs as <-.
    unfold openingPhase, openChanged, actionDetail, dialogElement_open,
      focusLog, focusEffects, openTrace, getFocusElement in *.
    notes. rewrite ?Ho, ?Hl, ?Hq, ?Hd, ?Hch, ?Ht, ?Hg, ?Hso, ?Hop, ?Hp.
    rewrite has_empty. rewrite bool_decide_false by done.
    do 8 (split; [done|]). split; [|done].
    unfold focusEffects. by rewrite <- app_assoc.
  - destruct Hk as (_ & _ & _ & _ & _ & _ & Ht). by rewrite Ht in Hs.
  - destruct Hk as (_ & _ & _ & _ & _ & _ & Ht). by rewrite Ht in Hs.
Qed.

Lemma openingPhase_step l0 g k s x s' :
  openingPhase l0 g k s ->
  internal x = true ->
  step x s = Some s' ->
  openingPhase l0 g (advance k x) s'.
Proof.
  intros Hk Hx Hs. destruct x; try discriminate Hx; unfold step in Hs.
  - destruct (isUpdatePending (lit s)) eqn:Hp; [|done]. injection Hs as <-.
    by apply openingPhase_update.
  - by eapply openingPhase_resume.
  - destruct Hk as (_ & Hq & _). unfold closeEvent in Hs.
    by rewrite Hq in Hs.
Qed.

Lemma openingPhase_run l0 g l :
  Forall (fun x => internal x = true) l ->
  forall k s s',
    openingPhase l0 g k s ->
    run l s = Some s' ->
    exists k', k <= k' /\ openingPhase l0 g k' s'.
Proof.
  induction 1 as [|x l Hx Hl IH]; intros k s s' Hk Hr; cbn [run] in Hr.
  - injection Hr as <-. by exists k.
  - destruct (step x s) as [s1|] eqn:Hs; [|done].
    destruct (IH _ _ _ (openingPhase_step _ _ _ _ _ _ Hk Hx Hs) Hr)
      as (k' & Hle & Hk').
    exists k'. split; [|done]. pose proof (advance_le k x). lia.
Qed.

Lemma openingPhase_log l0 g k s :
  openingPhase l0 g k s ->
  exists n, log (rt s) = (l0 ++ take n (openTrace g))%list.
Proof.
  intros (_ & _ & _ & Hk). destruct k as [|[|[|k]]].
  - destruct Hk as (_ & _ & _ & _ & -> & _). exists 0. by rewrite app_nil_r.
  - destruct Hk as (_ & _ & _ & _ & _ & -> & _). by exists 1.
  - destruct Hk as (_ & _ & _ & _ & _ & -> & _).
    exists (length (openTrace g)). by rewrite firstn_all.
  - destruct Hk as (_ & _ & _ & _ & _ & -> & _).
    exists (length (openTrace g)). by rewrite firstn_all.
Qed.

Lemma openingPhase_show s :
  reachable s ->
  closedAtRest s ->
  openingPhase (log (rt s)) (getFocusElement s) 0 (show s).
Proof.
  intros Hr (Ho & _ & Hq & Hce).
  destruct (quiescent_applied s Hr Hq) as (Hch & Hu & Hsh & Hso).
  destruct Hq as [Ht Hp].
  unfold openingPhase, show, getFocusElement. notes.
  rewrite Ho, Hch, Hp, Hso, lookup_noted_if_eq, lookup_empty.
  by rewrite bool_decide_false.
Qed.

(** Let the dialog be closed and at rest, its native dialog closed, and
    let [show()] be called.  Whatever turns the event loop then takes, what
    the element has done to the outside is at each point a beginning of:
    the native dialog is shown, the element marked [autofocus] is focused
    if there is one, the [opening] event with the action ['none'].  The
    turns can be taken to the end, where all of it has happened; there the
    dialog is open and at rest, its native dialog is open, and [opening] is
    still set: the transition sequence has ended at line 278, where it
    neither clears [opening] nor dispatches [opened]. *)
Theorem open_transition_order (s : State) :
  reachable s ->
  closedAtRest s ->
  (forall l s',
     Forall (fun x => internal x = true) l ->
     run (Show :: l) s = Some s' ->
     exists n,
       log (rt s')
       = (log (rt s) ++ take n (openTrace (getFocusElement s)))%list)
  /\ (forall mediaMatches duration mediaMatches',
        exists s',
          run [Show; Update mediaMatches; Resume 0 duration;
               Update mediaMatches'] s = Some s'
          /\ log (rt s')
             = (log (rt s) ++ openTrace (getFocusElement s))%list
          /\ openAtRest s'
          /\ dialogElement_open s' = true
          /\ showingOpen (priv s') = true
          /\ opening (priv s') = true).
Proof.
  intros Hr Hrest. pose proof (openingPhase_show s Hr Hrest) as H0. split.
  - intros l s' Hl Hrun. cbn [run step] in Hrun.
    destruct (openingPhase_run _ _ _ Hl _ _ _ H0 Hrun) as (k & _ & Hk).
    by eapply openingPhase_log.
  - intros mediaMatches duration mediaMatches'. cbn [run step].
    set (s0 := show s) in *.
    assert (Hp0 : isUpdatePending (lit s0) = true)
      by (by destruct H0 as (_ & _ & _ & _ & ? & _)).
    rewrite Hp0.
    pose proof (openingPhase_update _ _ _ _ mediaMatches H0 Hp0) as H1.
    cbn [advance] in H1. set (s1 := performUpdate mediaMatches s0) in *.
    assert (exists s2, resume 0 duration s1 = Some s2) as [s2 Hs2].
    { destruct H1 as (_ & _ & _ & _ & _ & _ & _ & _ & _ & Ht). unfold resume.
      rewrite Ht. cbn [lookup list_lookup].
      rewrite performTransition_1_flat. by eexists. }
    rewrite Hs2.
    pose proof (openingPhase_resume _ _ _ _ _ _ _ H1 Hs2) as H2.
    cbn [advance] in H2.
    assert (Hp2 : isUpdatePending (lit s2) = true)
      by (by destruct H2 as (_ & _ & _ & _ & ? & _)).
    rewrite Hp2. eexists. split; [reflexivity|].
    pose proof (openingPhase_update _ _ _ _ mediaMatches' H2 Hp2) as H3.
    cbn [advance] in H3.
    destruct H3 as (? & ? & _ & _ & ? & ? & ? & ? & ? & ?).
    by repeat split.
Qed.

Lemma open_transition_order_witness :
  exists s',
    run [Show; Update false; Resume 0 300; Update false] closedForm = Some s'
    /\ log (rt s')
       = [ShowModal; Focus markedField;
          DispatchAction "opening" (Some "none")]
    /\ opening (priv s') = true.
Proof.
  assert (Hr : reachable closedForm).
  { exists [plainButton], [Element ∅ [plainButton; markedField]],
      [Update false; Resume 0 0].
    vm_compute. reflexivity. }
  assert (Hc : closedAtRest closedForm).
  { vm_compute. repeat split; reflexivity. }
  destruct (proj2 (open_transition_order closedForm Hr Hc) false 300%Z false)
    as (s' & Hrun & Hlog & _ & _ & _ & Hop).
  exists s'. split; [exact Hrun|]. split; [|exact Hop].
  rewrite Hlog. vm_compute. reflexivity.
Defined.

(** The transition of the first update.  Whatever was done to the
    element before its first update, that update and the transition
    sequence it starts dispatch no event: when [open] is set they show the
    native dialog and focus the element marked [autofocus], and otherwise
    they do nothing to the outside.  When the sequence has ended,
    [showingOpen] and the native dialog agree with [open]; [opening] is
    [open], and [closing] is [false] when [open] is set and [undefined]
    otherwise, as [willUpdate] has left them. *)
Theorem first_update_dispatches_nothing (s : State) :
  reachable s ->
  hasUpdated (lit s) = false ->
  forall mediaMatches duration,
  exists s',
    run [Update mediaMatches; Resume 0 duration] s = Some s'
    /\ log (rt s')
       = (log (rt s)
          ++ if open (props s)
             then ShowModal :: focusEffects (getFocusElement s)
             else [])%list
    /\ dialogElement_open s' = open (props s)
    /\ showingOpen (priv s') = open (props s)
    /\ opening (priv s') = open (props s)
    /\ closing (priv s')
       = (if open (props s) then VBool false else VUndefined)
    /\ tasks (rt s') = [].
Proof.
  intros Hr Hu mediaMatches duration.
  destruct (invariant_reachable s Hr) as (_ & _ & _ & [_ Hst] & _).
  destruct (Hst Hu) as (Hch & Hsh & _ & Ht & Hp & _).
  destruct (has_lookup_Some _ _ _ Hch) as [Hh Hg].
  cbn [run step]. rewrite Hp.
  pose proof (getFocusElement_performUpdate mediaMatches s) as Hf.
  destruct (performUpdate_flat mediaMatches s) as (sf & fq & a & Hflat).
  set (s1 := performUpdate mediaMatches s) in *.
  assert (H1 : open (props s1) = open (props s)
               /\ tasks (rt s1) = [AtUpdateComplete false]
               /\ log (rt s1)
                  = (log (rt s)
                     ++ if open (props s) then [ShowModal] else [])%list
               /\ dialogElement_open s1 = open (props s)
               /\ opening (priv s1) = open (props s)
               /\ closing (priv s1)
                  = (if open (props s) then VBool false else VUndefined)).
  { rewrite Hflat. unfold dialogElement_open, spawned, openChanged,
      modalShadow, rendered. st.
    rewrite Hh, Hg, Ht, Hsh. cbn [andb default].
    rewrite bool_decide_true by done. by destruct (open (props s)). }
  destruct H1 as (Ho1 & Ht1 & Hl1 & Hd1 & Hop1 & Hcl1). clearbody s1.
  clear Hflat.
  unfold resume. rewrite Ht1. cbn [lookup list_lookup].
  rewrite performTransition_1_flat. eexists. split; [reflexivity|].
  unfold dialogElement_open, focusLog, focusEffects in *. notes.
  rewrite Ho1, Hl1, Ht1, Hf, Hd1, Hop1, Hcl1.
  split; [|done].
  destruct (open (props s)); rewrite <- ?app_assoc, ?app_nil_r; done.
Qed.

Lemma first_update_dispatches_nothing_witness :
  exists s',
    run [Update false; Resume 0 0] openedForm = Some s'
    /\ log (rt s') = [ShowModal; Focus markedField]
    /\ opening (priv s') = true.
Proof.
  assert (Hr : reachable openedForm).
  { exists [plainButton], [Element ∅ [plainButton; markedField]], [Show].
    vm_compute. reflexivity. }
  assert (Hu : hasUpdated (lit openedForm) = false)
    by (vm_compute; reflexivity).
  destruct (first_update_dispatches_nothing openedForm Hr Hu false 0%Z)
    as (s' & Hrun & Hlog & _ & _ & Hop & _).
  exists s'. split; [exact Hrun|]. split.
  - rewrite Hlog. vm_compute. reflexivity.
  - rewrite Hop. vm_compute. reflexivity.
Defined.

(** ** A dismissal by the cancellation gesture *)

Lemma cancelGesture_cancelDefault s :
  dialogElement_open s = true ->
  escapeKeyAction (props s) <> "" ->
  cancelGesture s = Some (cancelDefault (cancelEvent s)).
Proof.
  intros Hd He. unfold cancelGesture, cancelDefault, cancelEvent.
  rewrite Hd. unfold handleDialogDismiss.
  cbn [String.eqb Ascii.eqb Bool.eqb]. st.
  destruct (String.eqb_spec (escapeKeyAction (props s)) ""); [done|].
  cbn [fst]. rewrite dismissed_flat. unfold dialogElement_open in Hd.
  notes. by destruct (shadow (dom s)) as [[[] ?]|].
Qed.

Lemma filter_snoc_dispatch (l : list effect) type action :
  filter (fun x => isDispatch x = true)
    (l ++ [DispatchAction type action])%list
  = (filter (fun x => isDispatch x = true) l
     ++ [DispatchAction type action])%list.
Proof. by rewrite filter_app. Qed.

Lemma filter_snoc_other (l : list effect) x :
  isDispatch x = false ->
  filter (fun x => isDispatch x = true) (l ++ [x])%list
  = filter (fun x => isDispatch x = true) l.
Proof.
  intros Hx. rewrite filter_app, filter_cons.
  rewrite decide_False by (by rewrite Hx). apply app_nil_r.
Qed.

Lemma dismissPhase_update l0 e l' k native queued s mediaMatches :
  dismissPhase l0 e l' k native queued s ->
  isUpdatePending (lit s) = true ->
  dismissPhase l0 e l' (advance k (Update mediaMatches)) native queued
    (performUpdate mediaMatches s).
Proof.
  intros (Ho & Hca & Hn & Hq & Hl & Hf & Hk) Hp.
  pose proof (dialogElement_open_performUpdate mediaMatches s Ho) as Hd.
  destruct (performUpdate_flat mediaMatches s) as (sf & fq & at_ & Hflat).
  unfold dismissPhase. rewrite Hd. rewrite Hflat.
  unfold openChanged, spawned, has, get in *. st.
  rewrite Ho, Hca, Hn, Hq, Hl, andb_false_r, app_nil_r.
  do 5 (split; [done|]).
  destruct k as [|[|[|k]]]; cbn [advance].
  - destruct Hk as (Hch & _ & Hso & Ht).
    rewrite Hch, Ht, Hso, lookup_empty. cbn [negb default app].
    split; [done|]. split; [by apply bool_decide_false, is_Some_None|].
    split; [done|]. reflexivity.
  - destruct Hk as (Hc & Hso & Ht). rewrite Hc, Ht, Hso, lookup_empty.
    split; [done|]. split; [|done]. by apply bool_decide_false, is_Some_None.
  - destruct Hk as (Hc & Hso & Ht). rewrite Hc, Ht, lookup_empty.
    split; [done|]. split; [|done]. by apply bool_decide_false, is_Some_None.
  - destruct Hk as (Hc & Hso & Ht). rewrite Hc, Ht, lookup_empty.
    split; [done|]. split; [|done]. by apply bool_decide_false, is_Some_None.
Qed.

Lemma dismissPhase_resume l0 e l' k native queued s i duration s' :
  dismissPhase l0 e l' k native queued s ->
  resume i duration s = Some s' ->
  k = 1
  /\ isUpdatePending (lit s') = true
  /\ dismissPhase l0 e (l' ++ closeTrace (Some e))%list 2 native queued s'.
Proof.
  intros (Ho & Hca & Hn & Hq & Hl & Hf & Hk) Hs. unfold resume in Hs.
  destruct k as [|[|k]].
  - destruct Hk as (_ & _ & _ & Ht). by rewrite Ht in Hs.
  - split; [done|]. destruct Hk as (Hc & Hso & Ht). rewrite Ht in Hs.
    destruct i as [|i]; [|done]. cbn [lookup list_lookup] in Hs.
    rewrite performTransition_1_flat in Hs. injection Hs as <-.
    unfold dismissPhase, openChanged, actionDetail, dialogElement_open,
      closeTrace in *.
    notes. rewrite ?Ho, ?Hl, ?Hq, ?Hn, ?Hca, ?Ht, ?Hc, ?Hso.
    rewrite filter_snoc_dispatch, Hf, <- app_assoc.
    by rewrite bool_decide_false.
  - destruct Hk as (_ & _ & Ht). by rewrite Ht in Hs.
Qed.

Lemma dismissPhase_closeEvent l0 e l' k native queued s s' :
  dismissPhase l0 e l' k native queued s ->
  closeEvent s = Some s' ->
  dismissPhase l0 e (l' ++ [Redispatch "close"])%list k native (pred queued)
    s'.
Proof.
  intros (Ho & Hca & Hn & Hq & Hl & Hf & Hk) Hs. unfold closeEvent in Hs.
  rewrite Hq in Hs. destruct queued as [|queued]; [done|].
  unfold handleDialogDismiss in Hs.
  cbn [String.eqb Ascii.eqb Bool.eqb fst] in Hs.
  rewrite dismissed_flat in Hs. injection Hs as <-.
  unfold dismissPhase, openChanged, dialogElement_open in *.
  notes. rewrite ?Ho, ?Hl, ?Hq, ?Hn, ?Hca.
  rewrite filter_snoc_other, Hf, <- app_assoc by done.
  do 6 (split; [done|]).
  destruct k as [|[|k]].
  - destruct Hk as (Hch & Hp & Hso & Ht).
    rewrite lookup_noted_if_eq, Hch, Hp, Ht, Hso. by rewrite !orb_true_r.
  - destruct Hk as (Hc & Hso & Ht). rewrite ?has_noted_if_eq, Hc, Ht, Hso.
    by rewrite bool_decide_true.
  - destruct Hk as (Hc & Hso & Ht). rewrite ?has_noted_if_eq, Hc, Ht, Hso.
    by rewrite bool_decide_true.
Qed.

Lemma dismissPhase_step l0 e l' k native queued s x s' :
  dismissPhase l0 e l' k native queued s ->
  internal x = true ->
  step x s = Some s' ->
  exists l'' queued',
    dismissPhase l0 e l'' (advance k x) native queued' s'.
Proof.
  intros Hk Hx Hs. destruct x; try discriminate Hx; unfold step in Hs.
  - destruct (isUpdatePending (lit s)) eqn:Hp; [|done]. injection Hs as <-.
    eexists _, _. by apply dismissPhase_update.
  - destruct (dismissPhase_resume _ _ _ _ _ _ _ _ _ _ Hk Hs)
      as (-> & _ & H2).
    eexists _, _. exact H2.
  - eexists _, _.
    replace (advance k CloseEvent) with k by (by destruct k as [|[|[|k]]]).
    by eapply dismissPhase_closeEvent.
Qed.

Lemma dismissPhase_run l0 e l :
  Forall (fun x => internal x = true) l ->
  forall l' k native queued s s',
    dismissPhase l0 e l' k native queued s ->
    run l s = Some s' ->
    exists l'' k' queued',
      k <= k' /\ dismissPhase l0 e l'' k' native queued' s'.
Proof.
  induction 1 as [|x l Hx Hl IH]; intros l' k native queued s s' Hk Hr;
    cbn [run] in Hr.
  - injection Hr as <-. by exists l', k, queued.
  - destruct (step x s) as [s1|] eqn:Hs; [|done].
    destruct (dismissPhase_step _ _ _ _ _ _ _ _ _ Hk Hx Hs)
      as (l1 & q1 & H1).
    destruct (IH _ _ _ _ _ _ H1 Hr) as (l'' & k' & q' & Hle & Hk').
    exists l'', k', q'. split; [|done]. pose proof (advance_le k x). lia.
Qed.

(** The default action of the event closes the native dialog. *)
Lemma dismissPhase_default l0 e l' k native queued s :
  dismissPhase l0 e l' k native queued s ->
  dismissPhase l0 e l' k false (if native then S queued else queued)
    (cancelDefault s)
  /\ lit (cancelDefault s) = lit s.
Proof.
  intros (Ho & Hca & Hn & Hq & Hl & Hf & Hk).
  unfold cancelDefault, dismissPhase, dialogElement_open, openChanged in *.
  destruct (shadow (dom s)) as [[[] c]|] eqn:Hsh; st; rewrite ?Hsh;
    cbn in Hn; subst native; rewrite ?Hq; by repeat (split; [done|]).
Qed.

(** The listener of [cancel] has run on an open dialog at rest. *)
Lemma dismissPhase_cancelEvent s e :
  reachable s ->
  openAtRest s ->
  escapeKeyAction (props s) = e ->
  e <> "" ->
  dismissPhase (log (rt s)) e [Redispatch "cancel"] 0 true 0 (cancelEvent s).
Proof.
  intros Hr Hrest He Hne. destruct (openAtRest_native s Hr Hrest) as [Hn _].
  destruct Hrest as (Ho & Hq & Hce).
  destruct (quiescent_applied s Hr Hq) as (Hch & _ & _ & Hso).
  destruct Hq as [Ht Hp].
  unfold cancelEvent, handleDialogDismiss.
  cbn [String.eqb Ascii.eqb Bool.eqb]. st. rewrite He.
  destruct (String.eqb_spec e ""); [done|]. cbn [fst].
  rewrite dismissed_flat.
  unfold dismissPhase, dialogElement_open in *. notes.
  rewrite Hso, Ho, Hch, Hp, Ht, ?lookup_noted_if_eq, lookup_empty.
  rewrite bool_decide_false by done. cbn [negb].
  do 7 (split; [done|]). split; [|done]. by rewrite !orb_true_r.
Qed.


(** What the listener of the native [close] event leaves of the flags. *)
Lemma closeEvent_flags s s' :
  closeEvent s = Some s' ->
  opening (priv s') = false
  /\ closing (priv s') = VBool false
  /\ (isUpdatePending (lit s) = true -> isUpdatePending (lit s') = true).
Proof.
  unfold closeEvent. intros Hs.
  destruct (closeEvents (dom s)) as [|n]; [done|].
  unfold handleDialogDismiss in Hs.
  cbn [String.eqb Ascii.eqb Bool.eqb fst] in Hs.
  rewrite dismissed_flat in Hs. injection Hs as <-. notes.
  split; [done|]. split; [done|]. intros ->. by rewrite !orb_true_r.
Qed.

(** An update that applies no change of [open] leaves the flags. *)
Lemma performUpdate_flags mediaMatches s :
  openChanged s = false ->
  opening (priv (performUpdate mediaMatches s)) = opening (priv s)
  /\ closing (priv (performUpdate mediaMatches s)) = closing (priv s)
  /\ isUpdatePending (lit (performUpdate mediaMatches s)) = false.
Proof.
  intros Hc.
  destruct (performUpdate_flat mediaMatches s) as (sf & fq & a & ->).
  st. by rewrite Hc.
Qed.

(** Let the dialog be open and at rest, with an [escapeKeyAction] [e] that
    is not empty, and let the native dialog deliver [cancel].  The listener
    sets [open] to false at once.  Whatever turns the event loop takes
    before and after the default action of the event, [open] stays false,
    the native dialog is closed by the default action, and the lifecycle
    events dispatched are none or the [closing] event with the action [e];
    once nothing is left to run, [closing] has been dispatched and
    [showingOpen] is false.  In the order of a browser, where the update
    and the transition sequence run before the default action, the trace
    is: [cancel] propagated, [closing] with the action [e], [close]
    propagated; there the element is at rest with [opening] and [closing]
    false, cleared by the listener of the native [close] event.  Taken as
    one turn, the event and its default action are [cancelGesture]. *)
Theorem cancel_event_closes (s : State) (e : string) :
  reachable s ->
  openAtRest s ->
  escapeKeyAction (props s) = e ->
  e <> "" ->
  cancelGesture s = Some (cancelDefault (cancelEvent s))
  /\ open (props (cancelEvent s)) = false
  /\ (forall l1 l2 s2 s',
        Forall (fun x => internal x = true) l1 ->
        Forall (fun x => internal x = true) l2 ->
        run l1 (cancelEvent s) = Some s2 ->
        run l2 (cancelDefault s2) = Some s' ->
        open (props s') = false
        /\ dialogElement_open s' = false
        /\ exists l',
             log (rt s') = (log (rt s) ++ l')%list
             /\ (filter (fun x => isDispatch x = true) l' = []
                 \/ filter (fun x => isDispatch x = true) l'
                    = [DispatchAction "closing" (Some e)])
             /\ (quiescent s' ->
                 filter (fun x => isDispatch x = true) l'
                 = [DispatchAction "closing" (Some e)]
                 /\ showingOpen (priv s') = false))
  /\ (forall mediaMatches duration mediaMatches',
        exists s2 s',
          run [Update mediaMatches; Resume 0 duration] (cancelEvent s)
          = Some s2
          /\ run [CloseEvent; Update mediaMatches'] (cancelDefault s2)
             = Some s'
          /\ log (rt s')
             = (log (rt s)
                ++ [Redispatch "cancel"; DispatchAction "closing" (Some e);
                    Redispatch "close"])%list
          /\ quiescent s'
          /\ closeEvents (dom s') = 0
          /\ dialogElement_open s' = false
          /\ opening (priv s') = false
          /\ closing (priv s') = VBool false).
Proof.
  intros Hr Hrest He Hne.
  pose proof (dismissPhase_cancelEvent s e Hr Hrest He Hne) as H0.
  destruct (openAtRest_native s Hr Hrest) as [Hn _].
  split; [apply cancelGesture_cancelDefault; [done|by rewrite He]|].
  split; [by destruct H0 as (? & _)|].
  set (s0 := cancelEvent s) in *. split.
  - intros l1 l2 s2 s' Hl1 Hl2 Hrun1 Hrun2.
    destruct (dismissPhase_run _ _ _ Hl1 _ _ _ _ _ _ H0 Hrun1)
      as (l1' & k1 & q1 & _ & H1).
    destruct (dismissPhase_default _ _ _ _ _ _ _ H1) as [H1' _].
    destruct (dismissPhase_run _ _ _ Hl2 _ _ _ _ _ _ H1' Hrun2)
      as (l' & k & q & _ & Hk).
    destruct Hk as (Ho & _ & Hd & _ & Hl & Hf & Hk).
    split; [done|]. split; [done|]. exists l'. split; [done|].
    unfold closeTrace in Hf. split.
    + destruct (decide (k < 2)); [by left|by right].
    + intros [Ht Hp]. destruct k as [|[|k]].
      * destruct Hk as (_ & Hp' & _). congruence.
      * destruct Hk as (_ & _ & Ht'). congruence.
      * destruct Hk as (_ & Hso & _). split; [|done].
        by rewrite decide_False in Hf by lia.
  - intros mediaMatches duration mediaMatches'. cbn [run step].
    assert (Hp0 : isUpdatePending (lit s0) = true)
      by (by destruct H0 as (_ & _ & _ & _ & _ & _ & _ & ? & _)).
    rewrite Hp0.
    pose proof (dismissPhase_update _ _ _ _ _ _ _ mediaMatches H0 Hp0) as H1.
    cbn [advance] in H1. set (s1 := performUpdate mediaMatches s0) in *.
    assert (exists s2, resume 0 duration s1 = Some s2) as [s2 Hs2].
    { destruct H1 as (_ & _ & _ & _ & _ & _ & _ & _ & Ht). unfold resume.
      rewrite Ht. cbn [lookup list_lookup].
      rewrite performTransition_1_flat. by eexists. }
    rewrite Hs2. exists s2.
    destruct (dismissPhase_resume _ _ _ _ _ _ _ _ _ _ H1 Hs2)
      as (_ & Hp2 & H2).
    destruct (dismissPhase_default _ _ _ _ _ _ _ H2) as [H2' Hlit].
    set (s2' := cancelDefault s2) in *.
    assert (exists s3, closeEvent s2' = Some s3) as [s3 Hs3].
    { destruct H2' as (_ & _ & _ & Hq & _). unfold closeEvent.
      rewrite Hq. by eexists. }
    rewrite Hs3.
    pose proof (dismissPhase_closeEvent _ _ _ _ _ _ _ _ H2' Hs3) as H3.
    destruct (closeEvent_flags _ _ Hs3) as (Hop3 & Hcl3 & Hp3).
    rewrite Hlit in Hp3. specialize (Hp3 Hp2). rewrite Hp3.
    pose proof (dismissPhase_update _ _ _ _ _ _ _ mediaMatches' H3 Hp3) as H4.
    cbn [advance] in H4.
    assert (Hc3 : openChanged s3 = false)
      by (by destruct H3 as (_ & _ & _ & _ & _ & _ & ? & _)).
    destruct (performUpdate_flags mediaMatches' s3 Hc3) as (Hop4 & Hcl4 & Hp4).
    eexists. split; [done|]. split; [reflexivity|].
    destruct H4 as (_ & _ & Hd4 & Hq4 & Hl4 & _ & _ & _ & Ht4).
    split; [by rewrite Hl4, <- !app_assoc|]. split; [by split|].
    split; [done|]. split; [done|]. by rewrite Hop4, Hcl4.
Qed.

Lemma cancel_event_closes_witness :
  exists s2 s',
    run [Update false; Resume 0 0] (cancelEvent shownDialog) = Some s2
    /\ run [CloseEvent; Update false] (cancelDefault s2) = Some s'
    /\ log (rt s')
       = (log (rt shownDialog)
          ++ [Redispatch "cancel"; DispatchAction "closing" (Some "close");
              Redispatch "close"])%list
    /\ quiescent s'
    /\ closeEvents (dom s') = 0
    /\ dialogElement_open s' = false
    /\ opening (priv s') = false
    /\ closing (priv s') = VBool false.
Proof.
  assert (Ho : openAtRest shownDialog)
    by (vm_compute; repeat split; reflexivity).
  assert (He : escapeKeyAction (props shownDialog) = "close")
    by (vm_compute; reflexivity).
  exact (proj2 (proj2 (proj2
           (cancel_event_closes shownDialog "close" shownDialog_reachable
              Ho He ltac:(discriminate)))) false 0%Z false).
Defined.

(** ** A close by a write to [open] *)

(** Let the dialog be open and at rest, and let [open] be set to false.
    The transition sequence dispatches [closing] with the action that was
    pending, which is [undefined] if none was ever given, and there it
    ends: whatever turns the event loop takes, that event is all that
    reaches the outside, and when nothing is left to run the native dialog
    is still open and [closing] still set. *)
Theorem open_false_dispatches_closing (s : State) :
  reachable s ->
  openAtRest s ->
  (forall l s',
     Forall (fun x => internal x = true) l ->
     run (SetOpen false :: l) s = Some s' ->
     exists n,
       log (rt s')
       = (log (rt s)
          ++ take n [DispatchAction "closing" (currentAction (priv s))])%list)
  /\ (forall mediaMatches duration mediaMatches',
        exists s',
          run [SetOpen false; Update mediaMatches; Resume 0 duration;
               Update mediaMatches'] s = Some s'
          /\ log (rt s')
             = (log (rt s)
                ++ [DispatchAction "closing" (currentAction (priv s))])%list
          /\ quiescent s'
          /\ closing (priv s') = VBool true
          /\ dialogElement_open s' = true).
Proof.
  intros Hr Hrest.
  pose proof (closingPhase_start s (currentAction (priv s)) Hr Hrest) as H0.
  replace (set_currentAction (currentAction (priv s)) s) with s in H0
    by (by destruct s as [[] [] [] [] []]).
  split.
  - intros l s' Hl Hrun. cbn [run step] in Hrun.
    destruct (closingPhase_run _ _ _ Hl _ _ _ H0 Hrun) as (k & _ & Hk).
    eexists. by apply closingPhase_log.
  - intros mediaMatches duration mediaMatches'.
    destruct (closingPhase_complete _ _ _ mediaMatches duration mediaMatches'
                H0) as (s' & Hrun & H3).
    exists s'. split; [exact Hrun|].
    destruct H3 as (_ & _ & Hn & _ & _ & Hp & _ & Hcl & Hl & Ht).
    by repeat split.
Qed.

Lemma open_false_dispatches_closing_witness :
  exists s',
    run [SetOpen false; Update false; Resume 0 0; Update false] shownDialog
    = Some s'
    /\ log (rt s')
       = (log (rt shownDialog) ++ [DispatchAction "closing" None])%list
    /\ dialogElement_open s' = true.
Proof.
  pose proof shownDialog_reachable as Hr.
  assert (Ho : openAtRest shownDialog)
    by (vm_compute; repeat split; reflexivity).
  destruct (proj2 (open_false_dispatches_closing shownDialog Hr Ho)
              false 0%Z false)
    as (s' & Hrun & Hlog & _ & _ & Hd).
  exists s'. split; [exact Hrun|]. split; [|exact Hd].
  rewrite Hlog. vm_compute. reflexivity.
Defined.
